(** * caddy-cron-matcher: the [cron] request matcher of [cronmatcher.go]

    A shallow embedding of package [cronmatcher] and the properties of its
    window-membership algorithm.

    The package has four methods on [*CronMatcher]: [Provision], [Validate],
    [UnmarshalCaddyfile] and [Match].  They read and write the receiver,
    write to a zap logger and may panic (index out of range, nil logger), so
    they are embedded in a small state-and-panic monad [M] over a [World]
    that holds the receiver and the log sink.

    The libraries the package calls are interfaces here:
    - [gronx] (cron evaluation) is the class [gronx.Evaluator];
    - [caddyfile.Dispenser] is the class [caddyfile.Dispenser];
    - [zap] and [time] are small concrete models. *)

From Stdlib Require Import ZArith Bool Lia Permutation.
From stdpp Require Import base list strings pretty.
From Equations Require Import Equations.

Local Open Scope Z_scope.

(* ================================================================== *)
(** ** Package [time] *)
(* ================================================================== *)

(** A [time.Time] is an instant on the absolute time line, counted in
    ticks of the clock.  [Equal], [After] and [Before] compare instants (Go
    ignores the location for all three). *)
Module time.
Definition Time : Type := Z.
Definition Equal (t u : Time) : bool := t =? u.
Definition After (t u : Time) : bool := u <? t.
Definition Before (t u : Time) : bool := t <? u.
End time.

(* ================================================================== *)
(** ** Errors *)
(* ================================================================== *)

(** Which of the two slices a rule comes from. *)
Inductive Directive : Type := enable_at | disable_at.

(** Go [error] values that occur in the package.  The first three are the
    package's own [fmt.Errorf] values, the last stands for errors made by a
    library ([gronx], [d.Err]). *)
Inductive error : Type :=
| ErrAtLeastOne
    (* "both 'enable_at' and 'disable_at' must contain at least one cron expression" *)
| ErrSameNumber
    (* "'enable_at' and 'disable_at' must have the same number of cron expressions" *)
| ErrInvalidFormat (which : Directive) (index : nat) (expr : string)
    (* "invalid enable_at cron format at index %d: '%s'" and the same for disable_at *)
| ErrLibrary (msg : string).

(* ================================================================== *)
(** ** Package [zap] *)
(* ================================================================== *)

Module zap.
Inductive Level : Type := DebugLevel | InfoLevel | ErrorLevel.

Definition Level_rank (l : Level) : nat :=
  match l with DebugLevel => 0%nat | InfoLevel => 1%nat | ErrorLevel => 2%nat end.

Inductive Field : Type :=
| String (key val : string)
| Time (key : string) (val : time.Time)
| Error (err : error).

Record Entry : Type := mkEntry { level : Level; message : string; fields : list Field }.

(** A logger writes the entries at or above its level. *)
Record Logger : Type := mkLogger { enabled_from : Level }.

Definition Enabled (lg : Logger) (l : Level) : bool :=
  (Level_rank (enabled_from lg) <=? Level_rank l)%nat.

Definition write (lg : Logger) (e : Entry) (sink : list Entry) : list Entry :=
  if Enabled lg (level e) then sink ++ [e] else sink.
End zap.

(* ================================================================== *)
(** ** Package [gronx]: the recurrence evaluator *)
(* ================================================================== *)

(** The three functions of [gronx] the matcher calls.  The two tick
    functions return Go's pair [(time.Time, error)]; the error is [None]
    for [nil]. *)
Module gronx.
Class Evaluator : Type := {
  IsValid : string -> bool;
  PrevTickBefore : string -> time.Time -> bool -> time.Time * option error;
  NextTickAfter : string -> time.Time -> bool -> time.Time * option error
}.
End gronx.

(* ================================================================== *)
(** ** Packages [caddy], [http] and [caddyfile] *)
(* ================================================================== *)

Module caddy.
Record Context : Type := mkContext { ctx_logger : zap.Logger }.
(** [ctx.Logger()] never returns nil. *)
Definition Logger (ctx : Context) : zap.Logger := ctx_logger ctx.
End caddy.

Module http.
Record Request : Type := mkRequest { Method : string; URL : string }.
End http.

(** [caddyfile.Dispenser]: a cursor over a token stream.  [Next] moves to
    the next token and says whether there was one, [RemainingArgs] takes the
    rest of the line, [Err] makes an error at the cursor.  [remaining] counts
    the tokens still ahead of the cursor; it is what makes a [for d.Next()]
    loop end. *)
Module caddyfile.
Class Dispenser (D : Type) : Type := {
  Next : D -> bool * D;
  RemainingArgs : D -> list string * D;
  Err : D -> string -> error;
  remaining : D -> nat;
  Next_consumes : forall d d', Next d = (true, d') -> (remaining d' < remaining d)%nat;
  RemainingArgs_forward : forall d args d',
    RemainingArgs d = (args, d') -> (remaining d' <= remaining d)%nat
}.
End caddyfile.

(* ================================================================== *)
(** ** The matcher and the monad of its methods *)
(* ================================================================== *)

(** [type CronMatcher struct]: [logger] is a pointer and is nil until
    [Provision] sets it. *)
Record CronMatcher : Type := mkCronMatcher {
  EnableAt : list string;
  DisableAt : list string;
  logger : option zap.Logger
}.

(** What a method can see and change: the receiver [*cm] and the entries
    the logger has written. *)
Record World : Type := mkWorld { self : CronMatcher; sink : list zap.Entry }.

Inductive panic : Type :=
| IndexOutOfRange (i len : nat)
| NilPointerDereference.

Inductive Res (A : Type) : Type :=
| Done (a : A)
| Panicked (p : panic).
Arguments Done {A} a.
Arguments Panicked {A} p.

Definition M (A : Type) : Type := World -> Res A * World.

Definition ret {A} (a : A) : M A := fun w => (Done a, w).

Definition bind {A B} (m : M A) (k : A -> M B) : M B :=
  fun w => match m w with
           | (Done a, w') => k a w'
           | (Panicked p, w') => (Panicked p, w')
           end.

Declare Scope go_scope.
Delimit Scope go_scope with go.
Notation "x <- m ;; k" := (bind m (fun x => k))
  (at level 100, m at next level, right associativity) : go_scope.
Notation "m ;; k" := (bind m (fun _ => k))
  (at level 100, right associativity) : go_scope.
Local Open Scope go_scope.

Definition throw {A} (p : panic) : M A := fun w => (Panicked p, w).

(** Reading and writing the receiver. *)
Definition getSelf : M CronMatcher := fun w => (Done (self w), w).
Definition putSelf (cm : CronMatcher) : M unit :=
  fun w => (Done tt, mkWorld cm (sink w)).

(** [s[i]] on a slice: panics out of range. *)
Definition index (s : list string) (i : nat) : M string :=
  match s !! i with
  | Some x => ret x
  | None => throw (IndexOutOfRange i (length s))
  end.

(** [cm.logger.Debug/Info/Error(msg, fields...)]: a nil logger panics. *)
Definition log (l : zap.Level) (msg : string) (fs : list zap.Field) : M unit :=
  fun w => match logger (self w) with
           | Some lg => (Done tt, mkWorld (self w) (zap.write lg (zap.mkEntry l msg fs) (sink w)))
           | None => (Panicked NilPointerDereference, w)
           end.

(** What a loop body tells its loop: go on with the next iteration
    ([continue], or the end of the body), or leave the function with a
    value ([return]). *)
Inductive Ctl (A : Type) : Type :=
| Continue
| Return (a : A).
Arguments Continue {A}.
Arguments Return {A} a.

(** [for _, x := range xs { body }] *)
Fixpoint forRange {I A} (body : I -> M (Ctl A)) (xs : list I) : M (Ctl A) :=
  match xs with
  | [] => ret Continue
  | x :: xs' =>
      c <- body x ;;
      match c with
      | Continue => forRange body xs'
      | Return a => ret (Return a)
      end
  end.

(** The indices [0 .. len(s)-1] of a slice, and the index-value pairs a
    [range] with two variables goes through. *)
Definition indices {A} (s : list A) : list nat := seq 0 (length s).
Definition enumerate {A} (s : list A) : list (nat * A) := zip (indices s) s.

(* ================================================================== *)
(** ** [Provision] *)
(* ================================================================== *)

(** The body of the logging loop of [Provision]. *)
Definition logConfigured (i : nat) : M (Ctl (option error)) :=
  cm <- getSelf ;;
  e <- index (EnableAt cm) i ;;
  d <- index (DisableAt cm) i ;;
  log zap.InfoLevel
      ("CronMatcher configured (set " +:+ pretty (i + 1)%nat +:+ ", OR'ed together)")
      [zap.String "EnableAt" e; zap.String "DisableAt" d] ;;
  ret Continue.

(** [func (cm *CronMatcher) Provision(ctx caddy.Context) error].  The loop
    [for i := 0; i < len(cm.EnableAt); i++] runs over the indices of
    [cm.EnableAt]: its body writes to the log only, so the bound does not
    change. *)
Definition Provision (ctx : caddy.Context) : M (option error) :=
  cm <- getSelf ;;
  putSelf (mkCronMatcher (EnableAt cm) (DisableAt cm) (Some (caddy.Logger ctx))) ;;
  cm <- getSelf ;;
  if (length (EnableAt cm) =? 0)%nat || (length (DisableAt cm) =? 0)%nat then
    ret (Some ErrAtLeastOne)
  else if negb (length (EnableAt cm) =? length (DisableAt cm))%nat then
    ret (Some ErrSameNumber)
  else
    forRange logConfigured (indices (EnableAt cm)) ;;
    ret None.

(* ================================================================== *)
(** ** [UnmarshalCaddyfile] *)
(* ================================================================== *)

Section Unmarshal.
Context {D : Type} {DD : caddyfile.Dispenser D}.

(** [cm.EnableAt = append(cm.EnableAt, a0); cm.DisableAt = append(cm.DisableAt, a1)] *)
Definition appendPair (a0 a1 : string) (w : World) : World :=
  mkWorld (mkCronMatcher (EnableAt (self w) ++ [a0])
                         (DisableAt (self w) ++ [a1])
                         (logger (self w)))
          (sink w).

(** A value together with the fact that it is the value of [x]: the loop
    below needs to know which call of [Next] its dispenser came from. *)
Definition inspect {A : Type} (x : A) : { y : A | x = y } := exist _ x eq_refl.

(** [func (cm *CronMatcher) UnmarshalCaddyfile(d *caddyfile.Dispenser) error].
    The dispenser is a pointer too: the function returns it as it is left.
    [len(args) == 2] is the pattern [[a0; a1]]. *)
Equations? UnmarshalCaddyfile (d : D) (w : World) : Res (option error * D) * World
  by wf (caddyfile.remaining d) lt :=
  UnmarshalCaddyfile d w with inspect (caddyfile.Next d) := {
    | exist _ (true, d1) hnext with inspect (caddyfile.RemainingArgs d1) := {
        | exist _ ([a0; a1], d2) hargs => UnmarshalCaddyfile d2 (appendPair a0 a1 w);
        | exist _ (_, d2) hargs =>
            (Done (Some (caddyfile.Err d2
               "each 'cron' block must have exactly 2 arguments: 'enable_at' and 'disable_at'"),
                   d2), w) };
    | exist _ (false, d1) hnext => (Done (None, d1), w) }.
Proof.
  apply caddyfile.Next_consumes in hnext.
  apply caddyfile.RemainingArgs_forward in hargs.
  lia.
Qed.
End Unmarshal.

(* ================================================================== *)
(** ** [Validate] and [Match] *)
(* ================================================================== *)

(** [now.Equal(lastEnable) || (now.After(lastEnable) && now.Before(nextDisable))] *)
Definition inWindow (now lastEnable nextDisable : time.Time) : bool :=
  time.Equal now lastEnable || (time.After now lastEnable && time.Before now nextDisable).

Section Methods.
Context {G : gronx.Evaluator}.

(** The body of both loops of [Validate]. *)
Definition checkRule (which : Directive) (p : nat * string) : M (Ctl (option error)) :=
  let '(i, expr) := p in
  if negb (gronx.IsValid expr) then ret (Return (Some (ErrInvalidFormat which i expr)))
  else ret Continue.

(** [func (cm *CronMatcher) Validate() error] *)
Definition Validate : M (option error) :=
  cm <- getSelf ;;
  c <- forRange (checkRule enable_at) (enumerate (EnableAt cm)) ;;
  match c with
  | Return e => ret e
  | Continue =>
      cm <- getSelf ;;
      c <- forRange (checkRule disable_at) (enumerate (DisableAt cm)) ;;
      match c with
      | Return e => ret e
      | Continue => ret None
      end
  end.

(** The body of the loop of [Match], for the pair at index [i].  The log
    calls read [cm.EnableAt[i]] and [cm.DisableAt[i]] again; nothing wrote
    to the slices since, so the values read before are used. *)
Definition matchPair (now : time.Time) (i : nat) : M (Ctl bool) :=
  cm <- getSelf ;;
  enableAt <- index (EnableAt cm) i ;;
  let '(lastEnable, err) := gronx.PrevTickBefore enableAt now true in
  match err with
  | Some e =>
      log zap.ErrorLevel "Failed to compute last enable time"
          [zap.String "EnableAt" enableAt; zap.Error e] ;;
      ret Continue
  | None =>
      disableAt <- index (DisableAt cm) i ;;
      let '(nextDisable, err) := gronx.NextTickAfter disableAt lastEnable false in
      match err with
      | Some e =>
          log zap.ErrorLevel "Failed to compute next disable time"
              [zap.String "DisableAt" disableAt; zap.Error e] ;;
          ret Continue
      | None =>
          log zap.DebugLevel "Evaluating cron schedule"
              [zap.String "EnableAt" enableAt; zap.String "DisableAt" disableAt;
               zap.Time "now" now; zap.Time "last_enable" lastEnable;
               zap.Time "next_disable" nextDisable] ;;
          if inWindow now lastEnable nextDisable then
            log zap.DebugLevel "Request matches within the enable/disable range"
                [zap.Time "now" now; zap.Time "last_enable" lastEnable;
                 zap.Time "next_disable" nextDisable] ;;
            ret (Return true)
          else ret Continue
      end
  end.

(** [func (cm *CronMatcher) Match(r *http.Request) bool].  [nowFunc] is
    the package variable of that name; [for i := range cm.EnableAt] takes
    the length once. *)
Definition Match (nowFunc : unit -> time.Time) (r : http.Request) : M bool :=
  let now := nowFunc tt in
  cm <- getSelf ;;
  c <- forRange (matchPair now) (indices (EnableAt cm)) ;;
  match c with
  | Return b => ret b
  | Continue =>
      log zap.DebugLevel "Request did not match any cron schedule" [zap.Time "now" now] ;;
      ret false
  end.
End Methods.

(* ================================================================== *)
(** ** A table-driven evaluator *)
(* ================================================================== *)

(** An evaluator that knows a finite table of rules, each a periodic
    timetable on the line of seconds since 1970-01-01 00:00 UTC (a
    Thursday): the rule is due at [t] when [t] is congruent to one of its
    offsets modulo its period.  It is what the examples and the tests of the
    package run against. *)
Module Timetable.
Record Schedule : Type := mkSchedule { period : positive; offsets : list Z }.

Definition due (s : Schedule) (t : Z) : Prop :=
  exists o, o ∈ offsets s /\ (t - o) mod Z.pos (period s) = 0.

(** The tick of the progression [o + k * p] nearest to [ref] on each side. *)
Definition prevOf (p : Z) (ref : Z) (incl : bool) (o : Z) : Z :=
  let r := (ref - o) mod p in
  if negb incl && (r =? 0) then ref - p else ref - r.

Definition nextOf (p : Z) (ref : Z) (incl : bool) (o : Z) : Z :=
  let r := (ref - o) mod p in
  if incl && (r =? 0) then ref else ref - r + p.

Definition maximum (xs : list Z) : option Z :=
  match xs with [] => None | x :: xs' => Some (foldr Z.max x xs') end.
Definition minimum (xs : list Z) : option Z :=
  match xs with [] => None | x :: xs' => Some (foldr Z.min x xs') end.

Definition prevTick (s : Schedule) (ref : Z) (incl : bool) : option Z :=
  maximum (map (prevOf (Z.pos (period s)) ref incl) (offsets s)).
Definition nextTick (s : Schedule) (ref : Z) (incl : bool) : option Z :=
  minimum (map (nextOf (Z.pos (period s)) ref incl) (offsets s)).

Definition Table : Type := list (string * Schedule).

Fixpoint find (tb : Table) (rule : string) : option Schedule :=
  match tb with
  | [] => None
  | (r, s) :: tb' => if String.eqb r rule then Some s else find tb' rule
  end.

Definition tick (f : Schedule -> Z -> bool -> option Z)
    (tb : Table) (rule : string) (ref : time.Time) (incl : bool)
    : time.Time * option error :=
  match find tb rule with
  | None => (ref, Some (ErrLibrary "expr should contain 5-6 segments"))
  | Some s =>
      match f s ref incl with
      | Some t => (t, None)
      | None => (ref, Some (ErrLibrary "tried so hard"))
      end
  end.

Definition evaluator (tb : Table) : gronx.Evaluator := {|
  gronx.IsValid rule := bool_decide (is_Some (find tb rule));
  gronx.PrevTickBefore := tick prevTick tb;
  gronx.NextTickAfter := tick nextTick tb
|}.

(** When a rule of the table is due. *)
Definition dueRule (tb : Table) (rule : string) (t : time.Time) : Prop :=
  exists s, find tb rule = Some s /\ due s t.

(** Timetables of "minute hour * * *" and "minute hour * * days". *)
Definition daily (h m : Z) : Schedule := mkSchedule 86400 [h * 3600 + m * 60].
Definition weekly (days : list Z) (h m : Z) : Schedule :=
  mkSchedule 604800 (map (fun d => ((d - 4) mod 7) * 86400 + h * 3600 + m * 60) days).

(** The rules of the package's test and of its README, and one rule that
    is well-formed but never due. *)
Definition rules : Table :=
  [ ("0 10 * * *", daily 10 0); ("0 11 * * *", daily 11 0);
    ("0 9 * * *", daily 9 0);
    ("0 0 * * SUN", weekly [0] 0 0); ("0 0 * * MON", weekly [1] 0 0);
    ("45 22 * * 1-5", weekly [1; 2; 3; 4; 5] 22 45);
    ("15 23 * * 1-5", weekly [1; 2; 3; 4; 5] 23 15);
    ("15 23 * * 0,6", weekly [0; 6] 23 15);
    ("45 23 * * 0,6", weekly [0; 6] 23 45);
    ("0 10 * * 1-5", weekly [1; 2; 3; 4; 5] 10 0);
    ("0 11 * * 1-5", weekly [1; 2; 3; 4; 5] 11 0);
    ("0 15 * * 0,6", weekly [0; 6] 15 0);
    ("0 16 * * 0,6", weekly [0; 6] 16 0);
    ("0 0 30 2 *", mkSchedule 86400 []) ].
End Timetable.

(** A dispenser over tokens that carry their line: the cursor is the last
    token handed out, [ahead] the tokens after it. *)
Module Tokens.
Record Token : Type := mkToken { line : nat; text : string }.
Record Cursor : Type := mkCursor { at_line : option nat; ahead : list Token }.

Definition Next (d : Cursor) : bool * Cursor :=
  match ahead d with
  | [] => (false, d)
  | t :: ts => (true, mkCursor (Some (line t)) ts)
  end.

Fixpoint sameLine (l : nat) (ts : list Token) : list string * list Token :=
  match ts with
  | t :: ts' =>
      if (line t =? l)%nat then
        let '(args, rest) := sameLine l ts' in (text t :: args, rest)
      else ([], ts)
  | [] => ([], [])
  end.

Definition RemainingArgs (d : Cursor) : list string * Cursor :=
  match at_line d with
  | None => ([], d)
  | Some l => let '(args, rest) := sameLine l (ahead d) in (args, mkCursor (Some l) rest)
  end.

Lemma sameLine_length l ts args rest :
  sameLine l ts = (args, rest) -> (length rest <= length ts)%nat.
Proof.
  revert args rest. induction ts as [|t ts IH]; intros args rest; simpl.
  - intros [= <- <-]. simpl. lia.
  - destruct (line t =? l)%nat.
    + destruct (sameLine l ts) as [a r] eqn:E. intros [= <- <-].
      specialize (IH _ _ eq_refl). lia.
    + intros [= <- <-]. simpl. lia.
Qed.

Lemma Next_consumes d d' : Next d = (true, d') -> (length (ahead d') < length (ahead d))%nat.
Proof.
  unfold Next. destruct (ahead d) as [|t ts] eqn:E; [discriminate|].
  intros [= <-]. simpl. lia.
Qed.

Lemma RemainingArgs_forward d args d' :
  RemainingArgs d = (args, d') -> (length (ahead d') <= length (ahead d))%nat.
Proof.
  unfold RemainingArgs. destruct (at_line d) as [l|]; [|intros [= <- <-]; lia].
  destruct (sameLine l (ahead d)) as [a r] eqn:E. intros [= <- <-]. simpl.
  eapply sameLine_length; eauto.
Qed.

#[export] Instance dispenser : caddyfile.Dispenser Cursor := {|
  caddyfile.Next := Next;
  caddyfile.RemainingArgs := RemainingArgs;
  caddyfile.Err _ msg := ErrLibrary msg;
  caddyfile.remaining d := length (ahead d);
  caddyfile.Next_consumes := Next_consumes;
  caddyfile.RemainingArgs_forward := RemainingArgs_forward
|}.

(** The tokens of the lines of a matcher block, numbered from 1. *)
Fixpoint ofLines (n : nat) (ls : list (list string)) : list Token :=
  match ls with
  | [] => []
  | l :: ls' => map (mkToken n) l ++ ofLines (S n) ls'
  end.
Definition start (ls : list (list string)) : Cursor := mkCursor None (ofLines 1 ls).
End Tokens.

(* ================================================================== *)
(** ** The package's test, [TestCronMatcher_Match], and the README *)
(* ================================================================== *)

Module Examples.
#[local] Existing Instance Tokens.dispenser.
#[local] Instance gx : gronx.Evaluator := Timetable.evaluator Timetable.rules.

Definition r : http.Request := http.mkRequest "GET" "http://example.com".

Definition cm0 : CronMatcher :=
  mkCronMatcher ["0 10 * * 1-5"; "0 15 * * 0,6"] ["0 11 * * 1-5"; "0 16 * * 0,6"]
                (Some (zap.mkLogger zap.InfoLevel)).

(** The world after [cm.Provision(caddy.Context{})]. *)
Definition provisioned : Res (option error) * World :=
  Provision (caddy.mkContext (zap.mkLogger zap.DebugLevel)) (mkWorld cm0 []).

Definition matchAt (w : World) (now : time.Time) : Res bool :=
  fst (Match (fun _ => now) r w).

Example provision_ok : fst provisioned = Done None.
Proof. reflexivity. Qed.

(** 2024-11-01 (a Friday) 10:30, 12:30, 10:00, 11:00 and 2024-11-03 (a
    Sunday) 15:00, 16:00, 15:30, in this order. *)
Example test_cases :
  map (matchAt (snd provisioned))
      [1730457000; 1730464200; 1730455200; 1730458800; 1730646000; 1730649600; 1730647800]
  = map Done [true; false; true; false; true; false; true].
Proof. vm_compute. reflexivity. Qed.
End Examples.

(* ================================================================== *)
(** ** Computations that leave the receiver alone *)
(* ================================================================== *)

(** [m] never writes to the receiver, and what it returns depends on the
    receiver only, not on what the log holds. *)
Definition readonly {A} (m : M A) : Prop :=
  forall w, self (snd (m w)) = self w /\
            forall w', self w' = self w -> fst (m w') = fst (m w).

Lemma readonly_ret {A} (a : A) : readonly (ret a).
Proof. intros w; split; [reflexivity | intros w' _; reflexivity]. Qed.

Lemma readonly_throw {A} (p : panic) : readonly (@throw A p).
Proof. intros w; split; [reflexivity | intros w' _; reflexivity]. Qed.

Lemma readonly_getSelf : readonly getSelf.
Proof. intros w; split; [reflexivity | intros w' E; cbn; now rewrite E]. Qed.

Lemma readonly_index s i : readonly (index s i).
Proof. unfold index. destruct (s !! i); [apply readonly_ret | apply readonly_throw]. Qed.

Lemma readonly_log l msg fs : readonly (log l msg fs).
Proof.
  intros w; unfold log; split.
  - destruct (logger (self w)); reflexivity.
  - intros w' E. rewrite E. destruct (logger (self w)); reflexivity.
Qed.

Lemma readonly_bind {A B} (m : M A) (k : A -> M B) :
  readonly m -> (forall a, readonly (k a)) -> readonly (bind m k).
Proof.
  intros Hm Hk w. destruct (Hm w) as [Hs Hr]. unfold bind. split.
  - destruct (m w) as [[a|p] w1] eqn:E; cbn in *; [|exact Hs].
    destruct (Hk a w1) as [Hs1 _]. congruence.
  - intros w' Ew. specialize (Hr w' Ew). destruct (Hm w') as [Hs' _].
    destruct (m w) as [[a|p] w1] eqn:E; destruct (m w') as [[a'|p'] w1'] eqn:E';
      cbn in *; try congruence.
    injection Hr as ->. destruct (Hk a w1) as [_ Hr1]. apply Hr1. congruence.
  Qed.

Lemma readonly_forRange {I A} (body : I -> M (Ctl A)) xs :
  (forall x, readonly (body x)) -> readonly (forRange body xs).
Proof.
  intros Hb. induction xs as [|x xs IH]; cbn [forRange].
  - apply readonly_ret.
  - apply readonly_bind; [apply Hb|]. intros [|a]; [exact IH | apply readonly_ret].
Qed.

Ltac readonly :=
  repeat first
    [ apply readonly_bind; [|intro]
    | apply readonly_forRange; intro
    | apply readonly_ret | apply readonly_throw | apply readonly_getSelf
    | apply readonly_index | apply readonly_log
    | match goal with
      | |- readonly (let '(_, _) := ?p in _) => destruct p
      | |- readonly (match ?x with _ => _ end) => destruct x
      end ].

Section MethodFacts.
Context {G : gronx.Evaluator}.

Lemma readonly_matchPair now i : readonly (matchPair now i).
Proof. unfold matchPair. readonly. Qed.

Lemma readonly_Match nowFunc r : readonly (Match nowFunc r).
Proof. unfold Match. cbv zeta. pose proof readonly_matchPair. readonly; auto. Qed.

Lemma readonly_Validate : readonly Validate.
Proof. unfold Validate, checkRule. readonly. Qed.
End MethodFacts.

(* ================================================================== *)
(** ** The window set as the specification describes it *)
(* ================================================================== *)

Lemma existsb_agree {A} (f g : A -> bool) (l : list A) :
  (forall x, In x l -> f x = g x) -> existsb f l = existsb g l.
Proof.
  induction l as [|x l IH]; intros H; [reflexivity|]. cbn.
  rewrite (H x) by now left. rewrite IH; [reflexivity|].
  intros y Hy. apply H. now right.
Qed.

Section WindowSet.
Context {G : gronx.Evaluator}.

(** Membership of [now] in the resolved interval of the pair
    [(startRule, endRule)]: [lastStart] is the previous start match with
    [now] included, [nextEnd] the next end match strictly after
    [lastStart]; a pair whose evaluation fails has no interval. *)
Definition pairMatches (now : time.Time) (startRule endRule : string) : bool :=
  match gronx.PrevTickBefore startRule now true with
  | (lastStart, None) =>
      match gronx.NextTickAfter endRule lastStart false with
      | (nextEnd, None) => inWindow now lastStart nextEnd
      | (_, Some _) => false
      end
  | (_, Some _) => false
  end.

(** The pairs of a matcher, and the OR of all of them with no
    short-circuit. *)
Definition pairs (cm : CronMatcher) : list (string * string) :=
  zip (EnableAt cm) (DisableAt cm).

Definition anyPairMatches (now : time.Time) (ps : list (string * string)) : bool :=
  existsb (fun p => pairMatches now (fst p) (snd p)) ps.

(** The pair at index [i] of the two slices. *)
Definition pairAt (cm : CronMatcher) (now : time.Time) (i : nat) : bool :=
  match EnableAt cm !! i, DisableAt cm !! i with
  | Some s, Some e => pairMatches now s e
  | _, _ => false
  end.

(** A matcher that queries can be served from: [Provision] has set the
    logger and has seen as many start rules as end rules. *)
Definition ready (cm : CronMatcher) : Prop :=
  is_Some (logger cm) /\ length (EnableAt cm) = length (DisableAt cm).

Lemma matchPair_result now i w lg s e :
  logger (self w) = Some lg ->
  EnableAt (self w) !! i = Some s ->
  DisableAt (self w) !! i = Some e ->
  fst (matchPair now i w) = Done (if pairMatches now s e then Return true else Continue).
Proof.
  intros Hl Hs He. unfold matchPair, pairMatches, bind, getSelf, index.
  rewrite Hs. cbn.
  destruct (gronx.PrevTickBefore s now true) as [lastEnable [err|]].
  { unfold log. rewrite Hl. reflexivity. }
  rewrite He. cbn.
  destruct (gronx.NextTickAfter e lastEnable false) as [nextDisable [err|]].
  { unfold log. rewrite Hl. reflexivity. }
  unfold log at 1. rewrite Hl. cbn.
  destruct (inWindow now lastEnable nextDisable); [|reflexivity].
  unfold log. cbn. rewrite Hl. reflexivity.
Qed.

Lemma pairAt_lookup cm now i s e :
  EnableAt cm !! i = Some s -> DisableAt cm !! i = Some e ->
  pairAt cm now i = pairMatches now s e.
Proof. intros Hs He. unfold pairAt. now rewrite Hs, He. Qed.

(** The loop of [Match] over any indices that are in range of both
    slices. *)
Lemma forRange_matchPair now lg (ix : list nat) : forall w,
  logger (self w) = Some lg ->
  Forall (fun i => is_Some (EnableAt (self w) !! i) /\ is_Some (DisableAt (self w) !! i)) ix ->
  fst (forRange (matchPair now) ix w)
  = Done (if existsb (pairAt (self w) now) ix then Return true else Continue).
Proof.
  induction ix as [|i ix IH]; intros w Hl Hin; [reflexivity|].
  apply Forall_cons in Hin as [[[s Hs] [e He]] Hin].
  cbn [forRange existsb]. unfold bind.
  pose proof (matchPair_result now i w lg s e Hl Hs He) as Hr.
  destruct (readonly_matchPair now i w) as [Hself _].
  rewrite (pairAt_lookup _ _ _ _ _ Hs He).
  destruct (matchPair now i w) as [res w1]. cbn in Hr, Hself. subst res.
  destruct (pairMatches now s e); [reflexivity|]. cbn.
  rewrite <- Hself. apply IH; rewrite Hself; assumption.
Qed.

Lemma indices_in_range cm :
  length (EnableAt cm) = length (DisableAt cm) ->
  Forall (fun i => is_Some (EnableAt cm !! i) /\ is_Some (DisableAt cm !! i))
         (indices (EnableAt cm)).
Proof.
  intros Hlen. apply Forall_forall. intros i Hi.
  apply elem_of_seq in Hi. split; apply lookup_lt_is_Some; lia.
Qed.

(** OR over the indices is OR over the pairs. *)
Lemma existsb_pairAt cm now :
  length (EnableAt cm) = length (DisableAt cm) ->
  existsb (pairAt cm now) (indices (EnableAt cm)) = anyPairMatches now (pairs cm).
Proof.
  unfold pairAt, anyPairMatches, pairs, indices.
  generalize (EnableAt cm) (DisableAt cm). intros E D.
  enough (forall k, length E = length D ->
    existsb (fun i => match E !! (i - k)%nat, D !! (i - k)%nat with
                      | Some s, Some e => pairMatches now s e
                      | _, _ => false end) (seq k (length E))
    = existsb (fun p => pairMatches now (fst p) (snd p)) (zip E D)) as Hk.
  { intros Hlen. rewrite <- (Hk 0%nat Hlen). apply existsb_agree.
    intros i _. now rewrite Nat.sub_0_r. }
  revert D. induction E as [|s E IH]; intros [|e D] k Hlen; try discriminate; [reflexivity|].
  cbn [length seq existsb zip zip_with fst snd]. rewrite Nat.sub_diag. cbn [lookup list_lookup].
  f_equal. injection Hlen as Hlen. rewrite <- (IH D (S k) Hlen).
  apply existsb_agree. intros i Hi. apply in_seq in Hi.
  replace (i - k)%nat with (S (i - S k)) by lia. reflexivity.
Qed.

(** What [Match] returns on a matcher that is [ready]. *)
Lemma Match_result nowFunc r w :
  ready (self w) ->
  fst (Match nowFunc r w) = Done (anyPairMatches (nowFunc tt) (pairs (self w))).
Proof.
  intros [[lg Hl] Hlen]. unfold Match. cbv zeta. unfold bind at 1. cbn [getSelf].
  unfold bind.
  pose proof (forRange_matchPair (nowFunc tt) lg _ w Hl (indices_in_range _ Hlen)) as Hr.
  destruct (readonly_forRange (matchPair (nowFunc tt)) (indices (EnableAt (self w)))
              (readonly_matchPair _) w) as [Hself _].
  destruct (forRange _ _ w) as [res w1]. cbn in Hr, Hself. subst res.
  rewrite existsb_pairAt by assumption.
  destruct (anyPairMatches _ _); [reflexivity|].
  unfold log. rewrite Hself, Hl. reflexivity.
Qed.
End WindowSet.

(** The closed-open interval test [lastStart <= now < nextEnd]. *)
Definition closedOpen (now lastStart nextEnd : time.Time) : bool :=
  (lastStart <=? now) && (now <? nextEnd).

(** The construction of a matcher as caddy runs it: the world after
    [Provision], and [Validate] run in that world. *)
Definition provisionedWorld (ctx : caddy.Context) (w : World) : World :=
  snd (Provision ctx w).

(** The rule at index [i] of the slice that [which] names. *)
Definition ruleAt (cm : CronMatcher) (which : Directive) (i : nat) : option string :=
  match which with
  | enable_at => EnableAt cm !! i
  | disable_at => DisableAt cm !! i
  end.

(* ================================================================== *)
(** ** The membership test *)
(* ================================================================== *)

(** C5: when [nextEnd] is strictly after [lastStart], the test of [Match],
    [now == lastStart || (now > lastStart && now < nextEnd)], is the
    closed-open interval test [lastStart <= now < nextEnd]. *)
Theorem inWindow_closedOpen (now lastStart nextEnd : time.Time) :
  lastStart < nextEnd ->
  inWindow now lastStart nextEnd = closedOpen now lastStart nextEnd
  /\ (inWindow now lastStart nextEnd = true <-> lastStart <= now < nextEnd).
Proof.
  intros Hlt. unfold inWindow, closedOpen, time.Equal, time.After, time.Before.
  split.
  - destruct (Z.eqb_spec now lastStart), (Z.ltb_spec lastStart now),
      (Z.ltb_spec now nextEnd), (Z.leb_spec lastStart now); cbn; lia || reflexivity.
  - rewrite orb_true_iff, andb_true_iff, Z.eqb_eq, !Z.ltb_lt. lia.
Qed.

Lemma inWindow_closedOpen_witness :
  0 < 10 /\ inWindow 0 0 10 = closedOpen 0 0 10
  /\ (inWindow 0 0 10 = true <-> 0 <= 0 < 10).
Proof. split; [lia | apply (inWindow_closedOpen 0 0 10); lia]. Defined.

Lemma inWindow_spec (now lastStart nextEnd : time.Time) :
  inWindow now lastStart nextEnd = true
  <-> now = lastStart \/ (now > lastStart /\ now < nextEnd).
Proof.
  unfold inWindow, time.Equal, time.After, time.Before.
  rewrite orb_true_iff, andb_true_iff, Z.eqb_eq, !Z.ltb_lt. lia.
Qed.

Section Claims.
Context {G : gronx.Evaluator}.

(** C1: for the pair at index [i] and the instant [now], when both
    evaluator calls succeed, the loop body of [Match] returns [true] if and
    only if [now == lastStart] or [lastStart < now < nextEnd], where
    [lastStart] is the previous start tick with [now] included and
    [nextEnd] the next end tick strictly after [lastStart] (the reference
    of the second call is [lastStart], not [now]). *)
Theorem matchPair_membership (w : World) (lg : zap.Logger) (i : nat)
    (startRule endRule : string) (now lastStart nextEnd : time.Time) :
  logger (self w) = Some lg ->
  EnableAt (self w) !! i = Some startRule ->
  DisableAt (self w) !! i = Some endRule ->
  gronx.PrevTickBefore startRule now true = (lastStart, None) ->
  gronx.NextTickAfter endRule lastStart false = (nextEnd, None) ->
  (fst (matchPair now i w) = Done (Return true)
   <-> now = lastStart \/ (now > lastStart /\ now < nextEnd)).
Proof.
  intros Hl Hs He Hp Hn.
  rewrite (matchPair_result now i w lg _ _ Hl Hs He).
  unfold pairMatches. rewrite Hp, Hn. rewrite <- inWindow_spec.
  destruct (inWindow now lastStart nextEnd); split; congruence.
Qed.

(** C3: on a matcher that is ready, [Match] returns the OR of the
    membership results of all pairs, so its short-circuit loop agrees with
    evaluating every pair, and two matchers whose pairs are a permutation
    of each other return the same boolean at every instant. *)
Theorem Match_or_of_pairs (nowFunc : unit -> time.Time) (r r' : http.Request)
    (w w' : World) :
  ready (self w) -> ready (self w') ->
  Permutation (pairs (self w)) (pairs (self w')) ->
  fst (Match nowFunc r w) = Done (anyPairMatches (nowFunc tt) (pairs (self w)))
  /\ fst (Match nowFunc r' w') = fst (Match nowFunc r w).
Proof.
  intros Hw Hw' Hperm. rewrite !Match_result by assumption. split; [reflexivity|].
  f_equal. unfold anyPairMatches. apply eq_true_iff_eq.
  rewrite !existsb_exists. split; intros (p & Hin & Hp); exists p; split; auto.
  - eapply Permutation_in; [symmetry|]; eassumption.
  - eapply Permutation_in; eassumption.
Qed.


(** C9: with the same matcher and the same instant, [Match] returns the
    same result whatever the request and whatever the log holds; it
    leaves the matcher (both rule slices and the logger) as it found it;
    and a second call after the first returns what the first returned. *)
Theorem Match_deterministic (nowFunc nowFunc' : unit -> time.Time)
    (r r' : http.Request) (w w' : World) :
  self w' = self w -> nowFunc' tt = nowFunc tt ->
  fst (Match nowFunc' r' w') = fst (Match nowFunc r w)
  /\ self (snd (Match nowFunc r w)) = self w
  /\ fst (Match nowFunc r' (snd (Match nowFunc r w))) = fst (Match nowFunc r w).
Proof.
  intros Hself Hnow.
  assert (Heq : Match nowFunc' r' = Match nowFunc r).
  { unfold Match. now rewrite Hnow. }
  rewrite Heq. destruct (readonly_Match nowFunc r w) as [Hs Hr].
  split; [apply Hr; assumption|]. split; [assumption|].
  change (Match nowFunc r') with (Match nowFunc r). apply Hr. assumption.
Qed.
End Claims.

(* ================================================================== *)
(** ** Construction: [Provision] and [Validate] *)
(* ================================================================== *)

Lemma readonly_logConfigured i : readonly (logConfigured i).
Proof. unfold logConfigured. readonly. Qed.

Lemma forRange_logConfigured lg (ix : list nat) : forall w,
  logger (self w) = Some lg ->
  Forall (fun i => is_Some (EnableAt (self w) !! i) /\ is_Some (DisableAt (self w) !! i)) ix ->
  fst (forRange logConfigured ix w) = Done Continue.
Proof.
  induction ix as [|i ix IH]; intros w Hl Hin; [reflexivity|].
  apply Forall_cons in Hin as [[[s Hs] [e He]] Hin].
  cbn [forRange]. unfold bind.
  destruct (readonly_logConfigured i w) as [Hself _].
  assert (Hr : fst (logConfigured i w) = Done Continue).
  { unfold logConfigured, bind, getSelf, index, log. rewrite Hs. cbn. rewrite He. cbn.
    now rewrite Hl. }
  destruct (logConfigured i w) as [res w1]. cbn in Hr, Hself. subst res.
  apply IH; rewrite Hself; assumption.
Qed.

(** What [Provision] returns and how it leaves the receiver: it never
    panics, it sets the logger and it does not touch the rules. *)
Lemma Provision_result ctx w :
  fst (Provision ctx w)
  = Done (if (length (EnableAt (self w)) =? 0)%nat || (length (DisableAt (self w)) =? 0)%nat
          then Some ErrAtLeastOne
          else if negb (length (EnableAt (self w)) =? length (DisableAt (self w)))%nat
               then Some ErrSameNumber
               else None)
  /\ self (snd (Provision ctx w))
     = mkCronMatcher (EnableAt (self w)) (DisableAt (self w)) (Some (caddy.Logger ctx)).
Proof.
  unfold Provision. unfold bind, getSelf, putSelf. cbn [self sink EnableAt DisableAt].
  destruct ((length (EnableAt (self w)) =? 0)%nat || (length (DisableAt (self w)) =? 0)%nat);
    [split; reflexivity|].
  destruct (Nat.eqb_spec (length (EnableAt (self w))) (length (DisableAt (self w))))
    as [Hlen|Hlen]; cbn [negb]; [|split; reflexivity].
  set (w1 := mkWorld _ _).
  assert (Hr : fst (forRange logConfigured (indices (EnableAt (self w))) w1) = Done Continue).
  { apply (forRange_logConfigured (caddy.Logger ctx)); [reflexivity|].
    apply Forall_forall. intros i Hi. apply elem_of_seq in Hi. cbn.
    split; apply lookup_lt_is_Some; lia. }
  destruct (readonly_forRange logConfigured (indices (EnableAt (self w)))
              readonly_logConfigured w1) as [Hself _].
  destruct (forRange logConfigured _ w1) as [res w2]. cbn in Hr, Hself.
  subst res. split; [reflexivity | exact Hself].
Qed.

(** C7: [Provision] returns an error when there is no start rule or no end
    rule, and when the two slices differ in length; when it returns no
    error, the matcher it leaves has at least one pair, as many end rules as
    start rules and a logger, so no query is served from an empty or
    mismatched configuration. *)
Theorem Provision_checks (ctx : caddy.Context) (w : World) :
  (length (EnableAt (self w)) = 0%nat \/ length (DisableAt (self w)) = 0%nat ->
     fst (Provision ctx w) = Done (Some ErrAtLeastOne))
  /\ (length (EnableAt (self w)) <> length (DisableAt (self w)) ->
        fst (Provision ctx w) = Done (Some ErrAtLeastOne)
        \/ fst (Provision ctx w) = Done (Some ErrSameNumber))
  /\ (fst (Provision ctx w) = Done None ->
        ready (self (provisionedWorld ctx w))
        /\ (1 <= length (EnableAt (self (provisionedWorld ctx w))))%nat
        /\ pairs (self (provisionedWorld ctx w)) = pairs (self w)).
Proof.
  destruct (Provision_result ctx w) as [Hr Hs]. unfold provisionedWorld.
  rewrite Hr, Hs. clear Hr Hs.
  destruct (Nat.eqb_spec (length (EnableAt (self w))) 0) as [HE|HE];
    destruct (Nat.eqb_spec (length (DisableAt (self w))) 0) as [HD|HD];
    destruct (Nat.eqb_spec (length (EnableAt (self w))) (length (DisableAt (self w))))
      as [Hlen|Hlen]; cbn [orb negb];
    (split; [|split]); try (intros; auto; congruence); try (intros []; congruence).
  intros _. unfold ready, pairs. cbn. repeat split; eauto; lia.
Qed.

Section ValidateFacts.
Context {G : gronx.Evaluator}.

(** One loop of [Validate] over the rules [l], numbered from [k]: it
    leaves the world alone, and either all rules are valid and the loop
    falls through, or it returns the error of the first invalid rule. *)
Lemma forRange_checkRule which (l : list string) : forall k w,
  snd (forRange (checkRule which) (zip (seq k (length l)) l) w) = w
  /\ ((fst (forRange (checkRule which) (zip (seq k (length l)) l) w) = Done Continue
       /\ Forall (fun expr => gronx.IsValid expr = true) l)
      \/ exists i expr,
           fst (forRange (checkRule which) (zip (seq k (length l)) l) w)
           = Done (Return (Some (ErrInvalidFormat which (k + i) expr)))
           /\ l !! i = Some expr /\ gronx.IsValid expr = false).
Proof.
  induction l as [|expr l IH]; intros k w.
  - split; [reflexivity|]. left. split; [reflexivity | constructor].
  - cbn [length seq zip zip_with forRange]. unfold bind, checkRule.
    destruct (gronx.IsValid expr) eqn:Hv; cbn [negb ret].
    + destruct (IH (S k) w) as [Hw [[Hr Hall] | (i & e & Hr & Hi & He)]].
      * split; [exact Hw|]. left. split; [exact Hr | constructor; assumption].
      * split; [exact Hw|]. right. exists (S i), e.
        replace (k + S i)%nat with (S k + i)%nat by lia. auto.
    + split; [reflexivity|]. right. exists 0%nat, expr.
      rewrite Nat.add_0_r. auto.
Qed.

(** The three ways [Validate] can end. *)
Lemma Validate_cases w :
  (fst (Validate w) = Done None
   /\ Forall (fun expr => gronx.IsValid expr = true) (EnableAt (self w))
   /\ Forall (fun expr => gronx.IsValid expr = true) (DisableAt (self w)))
  \/ (exists i expr,
        fst (Validate w) = Done (Some (ErrInvalidFormat enable_at i expr))
        /\ EnableAt (self w) !! i = Some expr /\ gronx.IsValid expr = false)
  \/ (exists i expr,
        fst (Validate w) = Done (Some (ErrInvalidFormat disable_at i expr))
        /\ DisableAt (self w) !! i = Some expr /\ gronx.IsValid expr = false).
Proof.
  remember (Validate w) as V eqn:HV.
  unfold Validate, enumerate, indices, bind, getSelf in HV.
  destruct (forRange_checkRule enable_at (EnableAt (self w)) 0 w)
    as [Hw [[Hr HallE] | (i & e & Hr & Hi & He)]];
    destruct (forRange (checkRule enable_at) _ w) as [res w1]; cbn in Hw, Hr; subst res w1.
  - destruct (forRange_checkRule disable_at (DisableAt (self w)) 0 w)
      as [Hw [[Hr HallD] | (i & e & Hr & Hi & He)]];
      destruct (forRange (checkRule disable_at) _ w) as [res w1]; cbn in Hw, Hr;
      subst res w1 V.
    + left. auto.
    + right. right. exists i, e. auto.
  - subst V. right. left. exists i, e. auto.
Qed.

(** C8: [Validate] returns an error if and only if some rule of the
    matcher fails [gronx.IsValid]; the error names the slice ([enable_at]
    or [disable_at]) and the index of a rule that fails the check, with
    the rule itself; when every rule is valid it returns no error. *)
Theorem Validate_reports (w : World) :
  ((exists e, fst (Validate w) = Done (Some e))
   <-> exists which i expr,
         ruleAt (self w) which i = Some expr /\ gronx.IsValid expr = false)
  /\ (forall e, fst (Validate w) = Done (Some e) ->
        exists which i expr,
          e = ErrInvalidFormat which i expr
          /\ ruleAt (self w) which i = Some expr /\ gronx.IsValid expr = false)
  /\ ((forall which i expr, ruleAt (self w) which i = Some expr ->
         gronx.IsValid expr = true)
      -> fst (Validate w) = Done None).
Proof.
  assert (Hid : forall e, fst (Validate w) = Done (Some e) ->
    exists which i expr, e = ErrInvalidFormat which i expr
      /\ ruleAt (self w) which i = Some expr /\ gronx.IsValid expr = false).
  { intros e He.
    destruct (Validate_cases w) as [[Hr _] | [(i & x & Hr & Hi & Hx) | (i & x & Hr & Hi & Hx)]];
      rewrite Hr in He; [discriminate| |]; injection He as <-.
    - exists enable_at, i, x. auto.
    - exists disable_at, i, x. auto. }
  assert (Hbad : (exists which i expr,
                    ruleAt (self w) which i = Some expr /\ gronx.IsValid expr = false)
                 -> exists e, fst (Validate w) = Done (Some e)).
  { intros (which & i & x & Hi & Hx).
    destruct (Validate_cases w) as [(_ & HE & HD) | [(j & y & Hr & _) | (j & y & Hr & _)]];
      eauto.
    exfalso. destruct which; cbn in Hi.
    - rewrite Forall_lookup in HE. specialize (HE _ _ Hi). cbn in HE. congruence.
    - rewrite Forall_lookup in HD. specialize (HD _ _ Hi). cbn in HD. congruence. }
  split; [split|split].
  - intros [e He]. destruct (Hid e He) as (which & i & x & _ & H). eauto.
  - exact Hbad.
  - exact Hid.
  - intros Hall.
    destruct (Validate_cases w) as [[Hr _] | [(i & x & Hr & Hi & Hx) | (i & x & Hr & Hi & Hx)]];
      [exact Hr | |].
    + specialize (Hall enable_at i x Hi). congruence.
    + specialize (Hall disable_at i x Hi). congruence.
Qed.
End ValidateFacts.

(* ================================================================== *)
(** ** Parsing: [UnmarshalCaddyfile] *)
(* ================================================================== *)

Section UnmarshalFacts.
Context {D : Type} {DD : caddyfile.Dispenser D}.

(** [UnmarshalCaddyfile] always returns, and all it does to the receiver
    is to append the two arguments of some blocks, the first to
    [EnableAt] and the second to [DisableAt]. *)
Lemma UnmarshalCaddyfile_appends (d : D) (w : World) :
  exists o d' added,
    UnmarshalCaddyfile d w
    = (Done (o, d'),
       mkWorld (mkCronMatcher (EnableAt (self w) ++ map fst added)
                              (DisableAt (self w) ++ map snd added)
                              (logger (self w)))
               (sink w)).
Proof.
  funelim (UnmarshalCaddyfile d w);
    try (eexists _, _, []; cbn [map]; rewrite !app_nil_r;
         destruct w as [[E Di lg] sk]; reflexivity).
  match goal with
  | IH : exists _ _ _, UnmarshalCaddyfile _ _ = _ |- _ =>
      destruct IH as (o & d' & added & Hrec)
  end.
  exists o, d', ((a0, a1) :: added). rewrite Hrec. cbn. now rewrite <- !app_assoc.
Qed.

(** One turn of the loop of [UnmarshalCaddyfile]: a block with exactly two
    arguments appends them and the loop goes on; a block with any other
    number of arguments ends the call with an error. *)
Lemma UnmarshalCaddyfile_block (d d1 d2 : D) (args : list string) (w : World) :
  caddyfile.Next d = (true, d1) ->
  caddyfile.RemainingArgs d1 = (args, d2) ->
  (forall a0 a1, args = [a0; a1] ->
     UnmarshalCaddyfile d w = UnmarshalCaddyfile d2 (appendPair a0 a1 w))
  /\ (length args <> 2%nat ->
        exists e, UnmarshalCaddyfile d w = (Done (Some e, d2), w)).
Proof.
  intros Hn Ha. funelim (UnmarshalCaddyfile d w);
    repeat match goal with
    | H1 : caddyfile.Next ?x = _, H2 : caddyfile.Next ?x = _ |- _ =>
        rewrite H1 in H2; first [discriminate H2 | injection H2 as ?; subst]
    | H1 : caddyfile.RemainingArgs ?x = _, H2 : caddyfile.RemainingArgs ?x = _ |- _ =>
        rewrite H1 in H2; injection H2 as ? ?; subst
    end;
    (split; [intros b0 b1 Hb; first [discriminate Hb | injection Hb as -> ->; reflexivity]
            | intros Hlen; first [now (cbn in Hlen; lia) | eexists; reflexivity]]).
Qed.

(** What the loop of [UnmarshalCaddyfile] meets in a dispenser: the pairs
    of the blocks with two arguments, in their order, up to the end of
    the tokens ([None]) or to the first block with another number of
    arguments ([Some] of its arguments), and the dispenser it stops at. *)
Inductive Parses : D -> list (string * string) -> option (list string) -> D -> Prop :=
| Parses_end d d' :
    caddyfile.Next d = (false, d') -> Parses d [] None d'
| Parses_bad d d1 args d2 :
    caddyfile.Next d = (true, d1) ->
    caddyfile.RemainingArgs d1 = (args, d2) ->
    length args <> 2%nat ->
    Parses d [] (Some args) d2
| Parses_pair d d1 a0 a1 d2 ps bad d' :
    caddyfile.Next d = (true, d1) ->
    caddyfile.RemainingArgs d1 = ([a0; a1], d2) ->
    Parses d2 ps bad d' ->
    Parses d ((a0, a1) :: ps) bad d'.

(** The error of [UnmarshalCaddyfile], made at the dispenser [d]. *)
Definition twoArgumentsError (d : D) : error :=
  caddyfile.Err d
    "each 'cron' block must have exactly 2 arguments: 'enable_at' and 'disable_at'".

Lemma UnmarshalCaddyfile_step (d : D) (w : World) :
  (forall d', caddyfile.Next d = (false, d') ->
     UnmarshalCaddyfile d w = (Done (None, d'), w))
  /\ (forall d1 args d2,
        caddyfile.Next d = (true, d1) ->
        caddyfile.RemainingArgs d1 = (args, d2) ->
        length args <> 2%nat ->
        UnmarshalCaddyfile d w = (Done (Some (twoArgumentsError d2), d2), w)).
Proof.
  funelim (UnmarshalCaddyfile d w);
    (split;
     [ intros d' Hn
     | intros e1 args e2 Hn Ha Hlen ]);
    repeat match goal with
    | H1 : caddyfile.Next ?x = _, H2 : caddyfile.Next ?x = _ |- _ =>
        rewrite H1 in H2; first [discriminate H2 | injection H2 as ?; subst]
    | H1 : caddyfile.RemainingArgs ?x = _, H2 : caddyfile.RemainingArgs ?x = _ |- _ =>
        rewrite H1 in H2; injection H2 as ? ?; subst
    end;
    first [reflexivity | now (cbn in *; lia)].
Qed.

(** Every dispenser has a parse: the loop ends. *)
Lemma Parses_total (d : D) (w : World) : exists ps bad d', Parses d ps bad d'.
Proof.
  funelim (UnmarshalCaddyfile d w);
    first
      [ match goal with
        | IH : exists _ _ _, Parses _ _ _ _ |- _ =>
            destruct IH as (ps & bad & d' & Hp);
            exists ((a0, a1) :: ps), bad, d'; eapply Parses_pair; eassumption
        end
      | eexists [], None, _; eapply Parses_end; eassumption
      | eexists [], (Some _), _;
        eapply Parses_bad; [eassumption | eassumption | cbn; lia] ].
Qed.

(** The run of [UnmarshalCaddyfile] on a dispenser with a given parse. *)
Lemma UnmarshalCaddyfile_run (d : D) (ps : list (string * string))
    (bad : option (list string)) (d' : D) (w : World) :
  Parses d ps bad d' ->
  UnmarshalCaddyfile d w
  = (Done (match bad with
           | None => None
           | Some _ => Some (twoArgumentsError d')
           end, d'),
     mkWorld (mkCronMatcher (EnableAt (self w) ++ map fst ps)
                            (DisableAt (self w) ++ map snd ps)
                            (logger (self w)))
             (sink w)).
Proof.
  intros Hp. revert w. induction Hp as [d d' Hn | d d1 args d2 Hn Ha Hlen
                                       | d d1 a0 a1 d2 ps bad d' Hn Ha Hp IH]; intros w.
  - destruct (UnmarshalCaddyfile_step d w) as [Hend _]. rewrite (Hend d' Hn).
    cbn. rewrite !app_nil_r. now destruct w as [[E Di lg] sk].
  - destruct (UnmarshalCaddyfile_step d w) as [_ Hbad].
    rewrite (Hbad d1 args d2 Hn Ha Hlen).
    cbn. rewrite !app_nil_r. now destruct w as [[E Di lg] sk].
  - destruct (UnmarshalCaddyfile_block d d1 d2 [a0; a1] w Hn Ha) as [Hgood _].
    rewrite (Hgood a0 a1 eq_refl), IH. cbn. now rewrite <- !app_assoc.
Qed.
(** C10: from slices of equal length, [UnmarshalCaddyfile] returns (with
    or without an error) and leaves slices of equal length.  A block with
    exactly two arguments puts its first argument at the end of
    [EnableAt] and its second at the end of [DisableAt], one entry each,
    and the parse goes on; a block with another number of arguments ends
    the call with the error and changes nothing.  Over the whole call the
    slices grow by exactly the pairs of the accepted blocks, in their
    order, and the call returns nil only at the end of the tokens.  So
    [Provision] never answers a parsed configuration with the error for
    differing counts. *)
Theorem UnmarshalCaddyfile_keeps_pairs (d : D) (w : World) :
  length (EnableAt (self w)) = length (DisableAt (self w)) ->
  (exists o d', fst (UnmarshalCaddyfile d w) = Done (o, d'))
  /\ (forall d1 args d2,
        caddyfile.Next d = (true, d1) ->
        caddyfile.RemainingArgs d1 = (args, d2) ->
        (forall a0 a1, args = [a0; a1] ->
           UnmarshalCaddyfile d w
           = UnmarshalCaddyfile d2
               (mkWorld (mkCronMatcher (EnableAt (self w) ++ [a0])
                                       (DisableAt (self w) ++ [a1])
                                       (logger (self w)))
                        (sink w)))
        /\ (length args <> 2%nat ->
              UnmarshalCaddyfile d w = (Done (Some (twoArgumentsError d2), d2), w)))
  /\ (exists ps bad d', Parses d ps bad d')
  /\ (forall ps bad d',
        Parses d ps bad d' ->
        UnmarshalCaddyfile d w
        = (Done (match bad with
                 | None => None
                 | Some _ => Some (twoArgumentsError d')
                 end, d'),
           mkWorld (mkCronMatcher (EnableAt (self w) ++ map fst ps)
                                  (DisableAt (self w) ++ map snd ps)
                                  (logger (self w)))
                   (sink w)))
  /\ length (EnableAt (self (snd (UnmarshalCaddyfile d w))))
     = length (DisableAt (self (snd (UnmarshalCaddyfile d w))))
  /\ (forall ctx, fst (Provision ctx (snd (UnmarshalCaddyfile d w)))
                  <> Done (Some ErrSameNumber)).
Proof.
  intros Hlen. destruct (Parses_total d w) as (ps & bad & d' & Hp).
  pose proof (UnmarshalCaddyfile_run d ps bad d' w Hp) as Hu.
  split; [rewrite Hu; eauto|].
  split.
  { intros d1 args d2 Hn Ha. split.
    - intros a0 a1 Hargs.
      destruct (UnmarshalCaddyfile_block d d1 d2 args w Hn Ha) as [Hgood _].
      exact (Hgood a0 a1 Hargs).
    - intros Hbad. destruct (UnmarshalCaddyfile_step d w) as [_ Hstop].
      exact (Hstop d1 args d2 Hn Ha Hbad). }
  split; [eauto|].
  split; [intros ps0 bad0 d0 Hp0; now apply UnmarshalCaddyfile_run|].
  rewrite Hu. cbn [fst snd self EnableAt DisableAt].
  assert (Hlen' : length (EnableAt (self w) ++ map fst ps)
                  = length (DisableAt (self w) ++ map snd ps)).
  { rewrite !length_app, !length_map. lia. }
  split; [exact Hlen'|].
  intros ctx. destruct (Provision_result ctx
    (mkWorld (mkCronMatcher (EnableAt (self w) ++ map fst ps)
                            (DisableAt (self w) ++ map snd ps) (logger (self w)))
             (sink w))) as [Hr _].
  rewrite Hr. cbn [self EnableAt DisableAt].
  destruct (_ || _); [discriminate|].
  rewrite Hlen', Nat.eqb_refl. discriminate.
Qed.
End UnmarshalFacts.

(* ================================================================== *)
(** ** Windows of an evaluator that keeps its contract *)
(* ================================================================== *)

(** The contract the specification gives the evaluator (its section 4.1),
    for the two calls [Match] makes.  [due rule t] says that [rule] matches
    the instant [t].  A successful [PrevTickBefore rule ref true] is the latest
    match at or before [ref], a successful [NextTickAfter rule ref false] the
    earliest match strictly after [ref], and the calls succeed when there is
    such a match. *)
Record EvaluatorContract (G : gronx.Evaluator) (due : string -> time.Time -> Prop) : Prop := {
  prev_latest : forall rule ref t,
    gronx.PrevTickBefore rule ref true = (t, None) ->
    due rule t /\ t <= ref /\ forall u, due rule u -> u <= ref -> u <= t;
  next_earliest : forall rule ref t,
    gronx.NextTickAfter rule ref false = (t, None) ->
    due rule t /\ ref < t /\ forall u, due rule u -> ref < u -> t <= u;
  prev_found : forall rule ref u,
    due rule u -> u <= ref -> snd (gronx.PrevTickBefore rule ref true) = None;
  next_found : forall rule ref u,
    due rule u -> ref < u -> snd (gronx.NextTickAfter rule ref false) = None
}.

Section Windows.
Context {G : gronx.Evaluator} (due : string -> time.Time -> Prop).
Hypothesis contract : EvaluatorContract G due.

(** The previous start tick is [T0] as long as the start rule does not
    match again. *)
Lemma prev_is_start startRule T0 t :
  due startRule T0 -> T0 <= t ->
  (forall u, T0 < u <= t -> ~ due startRule u) ->
  gronx.PrevTickBefore startRule t true = (T0, None).
Proof.
  intros Hdue Hle Hnone.
  pose proof (prev_found _ _ contract startRule t T0 Hdue Hle) as Hok.
  destruct (gronx.PrevTickBefore startRule t true) as [x err] eqn:Hp. cbn in Hok. subst err.
  destruct (prev_latest _ _ contract _ _ _ Hp) as (Hx & Hxt & Hmax).
  specialize (Hmax T0 Hdue Hle).
  destruct (Z.eq_dec x T0) as [->|Hne]; [reflexivity|].
  exfalso. apply (Hnone x); [lia | exact Hx].
Qed.

(** The next end tick after [T0] is [T1] when the end rule does not match
    in between. *)
Lemma next_is_end endRule T0 T1 :
  due endRule T1 -> T0 < T1 ->
  (forall u, T0 < u < T1 -> ~ due endRule u) ->
  gronx.NextTickAfter endRule T0 false = (T1, None).
Proof.
  intros Hdue Hlt Hnone.
  pose proof (next_found _ _ contract endRule T0 T1 Hdue Hlt) as Hok.
  destruct (gronx.NextTickAfter endRule T0 false) as [x err] eqn:Hn. cbn in Hok. subst err.
  destruct (next_earliest _ _ contract _ _ _ Hn) as (Hx & Hxt & Hmin).
  specialize (Hmin T1 Hdue Hlt).
  destruct (Z.eq_dec x T1) as [->|Hne]; [reflexivity|].
  exfalso. apply (Hnone x); [lia | exact Hx].
Qed.

(** An instant that every earlier window has closed before or at is in no
    window. *)
Lemma closed_before startRule endRule t :
  (forall s, due startRule s -> s <= t -> exists e, due endRule e /\ s < e <= t) ->
  pairMatches t startRule endRule = false.
Proof.
  intros Hclosed. unfold pairMatches.
  destruct (gronx.PrevTickBefore startRule t true) as [ls [err|]] eqn:Hp; [reflexivity|].
  destruct (prev_latest _ _ contract _ _ _ Hp) as (Hls & Hlst & _).
  destruct (Hclosed ls Hls Hlst) as (e & He & Hlse & Het).
  destruct (gronx.NextTickAfter endRule ls false) as [ne [err|]] eqn:Hn; [reflexivity|].
  destruct (next_earliest _ _ contract _ _ _ Hn) as (_ & _ & Hmin).
  specialize (Hmin e He Hlse).
  unfold inWindow, time.Equal, time.After, time.Before.
  apply orb_false_iff. split; [apply Z.eqb_neq; lia|].
  apply andb_false_iff. right. apply Z.ltb_ge. lia.
Qed.

(** C2: a matcher with the one pair [(startRule, endRule)], where the
    start rule matches at [T0], the end rule at [T1 > T0], the start rule
    matches nowhere else up to and including [T1] and the end rule nowhere
    between [T0] and [T1].  Then [Match] returns [true] at [T0] and at every
    instant between [T0] and [T1], [false] at [T1], and [false] at every
    instant before [T0] that no earlier window covers (every start match
    at or before it is followed by an end match at or before it). *)
Theorem window_boundaries (startRule endRule : string) (T0 T1 : time.Time)
    (lg : zap.Logger) (sk : list zap.Entry) (r : http.Request) :
  due startRule T0 -> due endRule T1 -> T0 < T1 ->
  (forall u, T0 < u <= T1 -> ~ due startRule u) ->
  (forall u, T0 < u < T1 -> ~ due endRule u) ->
  let w := mkWorld (mkCronMatcher [startRule] [endRule] (Some lg)) sk in
  fst (Match (fun _ => T0) r w) = Done true
  /\ fst (Match (fun _ => T1) r w) = Done false
  /\ (forall t, T0 < t < T1 -> fst (Match (fun _ => t) r w) = Done true)
  /\ (forall t, t < T0 ->
        (forall s, due startRule s -> s <= t -> exists e, due endRule e /\ s < e <= t) ->
        fst (Match (fun _ => t) r w) = Done false).
Proof.
  intros Hs He Hlt HnoS HnoE w.
  assert (Hready : ready (self w)) by (split; [eexists; reflexivity | reflexivity]).
  assert (Hm : forall t, fst (Match (fun _ => t) r w)
                         = Done (pairMatches t startRule endRule)).
  { intros t. rewrite (Match_result _ r w Hready). cbn. now rewrite orb_false_r. }
  assert (Hin : forall t, T0 <= t <= T1 ->
                pairMatches t startRule endRule = inWindow t T0 T1).
  { intros t Ht. unfold pairMatches.
    rewrite (prev_is_start startRule T0 t Hs) by (try lia; intros u Hu; apply HnoS; lia).
    now rewrite (next_is_end endRule T0 T1 He Hlt HnoE). }
  rewrite !Hm. repeat split.
  - rewrite Hin by lia. f_equal. apply inWindow_spec. now left.
  - rewrite Hin by lia. f_equal.
    destruct (inWindow T1 T0 T1) eqn:E; [|reflexivity]. apply inWindow_spec in E. lia.
  - intros t Ht. rewrite Hm, Hin by lia. f_equal. apply inWindow_spec. lia.
  - intros t _ Hclosed. rewrite Hm. f_equal. now apply closed_before.
Qed.
End Windows.

(* ================================================================== *)
(** ** The table-driven evaluator keeps the contract *)
(* ================================================================== *)

Module TimetableFacts.
Import Timetable.

Lemma multiple_iff (p x : Z) : 0 < p -> (x mod p = 0 <-> exists k, x = p * k).
Proof.
  intros Hp. split.
  - intros H. exists (x / p). pose proof (Z.div_mod x p). lia.
  - intros [k ->]. rewrite Z.mul_comm. apply Z.mod_mul. lia.
Qed.

(** [prevOf] with the reference included: the latest tick of the
    progression at or before [ref]. *)
Lemma prevOf_latest (p ref o : Z) :
  0 < p ->
  (prevOf p ref true o - o) mod p = 0
  /\ prevOf p ref true o <= ref
  /\ forall u, (u - o) mod p = 0 -> u <= ref -> u <= prevOf p ref true o.
Proof.
  intros Hp. unfold prevOf. cbn [negb andb].
  pose proof (Z.mod_pos_bound (ref - o) p Hp) as Hb.
  pose proof (Z.div_mod (ref - o) p ltac:(lia)) as Hd.
  repeat split.
  - apply multiple_iff; [lia|]. exists ((ref - o) / p). lia.
  - lia.
  - intros u Hu Hle. apply multiple_iff in Hu as [k Hk]; [|lia].
    assert (k <= (ref - o) / p) by (apply Z.div_le_lower_bound; lia).
    nia.
Qed.

(** [nextOf] with the reference excluded: the earliest tick of the
    progression strictly after [ref]. *)
Lemma nextOf_earliest (p ref o : Z) :
  0 < p ->
  (nextOf p ref false o - o) mod p = 0
  /\ ref < nextOf p ref false o
  /\ forall u, (u - o) mod p = 0 -> ref < u -> nextOf p ref false o <= u.
Proof.
  intros Hp. unfold nextOf. cbn [andb].
  pose proof (Z.mod_pos_bound (ref - o) p Hp) as Hb.
  pose proof (Z.div_mod (ref - o) p ltac:(lia)) as Hd.
  repeat split.
  - apply multiple_iff; [lia|]. exists ((ref - o) / p + 1). lia.
  - lia.
  - intros u Hu Hlt. apply multiple_iff in Hu as [k Hk]; [|lia].
    assert ((ref - o) / p < k).
    { apply Z.div_lt_upper_bound; lia. }
    nia.
Qed.

Lemma maximum_spec (xs : list Z) (m : Z) :
  maximum xs = Some m -> m ∈ xs /\ forall x, x ∈ xs -> x <= m.
Proof.
  destruct xs as [|x xs]; [discriminate|]. cbn. intros [= <-].
  revert x. induction xs as [|y ys IH]; intros x; cbn.
  - split; [left|]. intros z Hz. apply list_elem_of_singleton in Hz. lia.
  - destruct (IH x) as [Hin Hmax]. split.
    + destruct (Z.max_spec y (foldr Z.max x ys)) as [[_ ->] | [_ ->]].
      * apply elem_of_cons in Hin as [Hin|Hin]; [rewrite Hin; left|].
        right. now right.
      * right. left.
    + intros z Hz. apply elem_of_cons in Hz as [->|Hz].
      * specialize (Hmax x ltac:(left)). lia.
      * apply elem_of_cons in Hz as [->|Hz]; [lia|].
        specialize (Hmax z ltac:(now right)). lia.
Qed.

Lemma minimum_spec (xs : list Z) (m : Z) :
  minimum xs = Some m -> m ∈ xs /\ forall x, x ∈ xs -> m <= x.
Proof.
  destruct xs as [|x xs]; [discriminate|]. cbn. intros [= <-].
  revert x. induction xs as [|y ys IH]; intros x; cbn.
  - split; [left|]. intros z Hz. apply list_elem_of_singleton in Hz. lia.
  - destruct (IH x) as [Hin Hmin]. split.
    + destruct (Z.min_spec y (foldr Z.min x ys)) as [[_ ->] | [_ ->]].
      * right. left.
      * apply elem_of_cons in Hin as [Hin|Hin]; [rewrite Hin; left|].
        right. now right.
    + intros z Hz. apply elem_of_cons in Hz as [->|Hz].
      * specialize (Hmin x ltac:(left)). lia.
      * apply elem_of_cons in Hz as [->|Hz]; [lia|].
        specialize (Hmin z ltac:(now right)). lia.
Qed.

Lemma tick_ok f tb rule ref incl t :
  tick f tb rule ref incl = (t, None) ->
  exists s, find tb rule = Some s /\ f s ref incl = Some t.
Proof.
  unfold tick. destruct (find tb rule) as [s|]; [|discriminate].
  destruct (f s ref incl) as [x|] eqn:Hf; [|discriminate]. intros [= <-].
  exists s. split; [reflexivity | exact Hf].
Qed.

Lemma tick_found f tb rule ref incl s :
  find tb rule = Some s -> is_Some (f s ref incl) ->
  snd (tick f tb rule ref incl) = None.
Proof. unfold tick. intros -> [x ->]. reflexivity. Qed.

Lemma contract (tb : Table) : EvaluatorContract (evaluator tb) (dueRule tb).
Proof.
  split; cbn [gronx.PrevTickBefore gronx.NextTickAfter evaluator].
  - intros rule ref t Ht. apply tick_ok in Ht as (s & Hs & Ht).
    unfold prevTick in Ht. apply maximum_spec in Ht as [Hin Hmax].
    apply list_elem_of_fmap in Hin as (o & -> & Ho).
    destruct (prevOf_latest (Z.pos (period s)) ref o ltac:(lia)) as (Hd & Hle & _).
    split; [exists s; split; [exact Hs | exists o; auto]|]. split; [exact Hle|].
    intros u (s' & Hs' & o' & Ho' & Hu) Hur. rewrite Hs in Hs'. injection Hs' as <-.
    destruct (prevOf_latest (Z.pos (period s)) ref o' ltac:(lia)) as (_ & _ & Hlatest).
    specialize (Hlatest u Hu Hur).
    specialize (Hmax (prevOf (Z.pos (period s)) ref true o')
                     ltac:(apply list_elem_of_fmap; eauto)). lia.
  - intros rule ref t Ht. apply tick_ok in Ht as (s & Hs & Ht).
    unfold nextTick in Ht. apply minimum_spec in Ht as [Hin Hmin].
    apply list_elem_of_fmap in Hin as (o & -> & Ho).
    destruct (nextOf_earliest (Z.pos (period s)) ref o ltac:(lia)) as (Hd & Hlt & _).
    split; [exists s; split; [exact Hs | exists o; auto]|]. split; [exact Hlt|].
    intros u (s' & Hs' & o' & Ho' & Hu) Hur. rewrite Hs in Hs'. injection Hs' as <-.
    destruct (nextOf_earliest (Z.pos (period s)) ref o' ltac:(lia)) as (_ & _ & Hearliest).
    specialize (Hearliest u Hu Hur).
    specialize (Hmin (nextOf (Z.pos (period s)) ref false o')
                     ltac:(apply list_elem_of_fmap; eauto)). lia.
  - intros rule ref u (s & Hs & o & Ho & _) _. apply (tick_found _ _ _ _ _ s Hs).
    unfold prevTick. destruct (offsets s) as [|o1 os]; [inversion Ho|]. cbn. eauto.
  - intros rule ref u (s & Hs & o & Ho & _) _. apply (tick_found _ _ _ _ _ s Hs).
    unfold nextTick. destruct (offsets s) as [|o1 os]; [inversion Ho|]. cbn. eauto.
Qed.
End TimetableFacts.

(* ================================================================== *)
(** ** Empty rule strings *)
(* ================================================================== *)

Section EmptyRule.
Context {G : gronx.Evaluator}.

(** C6, as the code has it: neither method looks for empty rule strings.
    A matcher with as many start rules as end rules, one of them the
    empty string, passes [Provision]; when [gronx.IsValid] rejects the
    empty string, [Validate] on the provisioned matcher fails, and its
    error is the invalid-format error with the slice and the index of a
    rule that fails the check, as for any other invalid rule. *)
Theorem empty_rule_is_invalid_format (ctx : caddy.Context) (w : World)
    (which : Directive) (i : nat) :
  length (EnableAt (self w)) = length (DisableAt (self w)) ->
  ruleAt (self w) which i = Some "" ->
  gronx.IsValid "" = false ->
  fst (Provision ctx w) = Done None
  /\ exists which' j expr,
       fst (Validate (provisionedWorld ctx w))
       = Done (Some (ErrInvalidFormat which' j expr))
       /\ ruleAt (self w) which' j = Some expr /\ gronx.IsValid expr = false.
Proof.
  intros Hlen Hi Hinvalid. destruct (Provision_result ctx w) as [Hr Hs].
  assert (Hpos : (0 < length (EnableAt (self w)))%nat).
  { destruct which; cbn in Hi; apply lookup_lt_Some in Hi; lia. }
  split.
  - rewrite Hr.
    destruct (Nat.eqb_spec (length (EnableAt (self w))) 0); [lia|].
    destruct (Nat.eqb_spec (length (DisableAt (self w))) 0); [lia|].
    cbn [orb]. now rewrite Hlen, Nat.eqb_refl.
  - assert (Hrule : forall wh j, ruleAt (self (provisionedWorld ctx w)) wh j
                                 = ruleAt (self w) wh j).
    { intros wh j. unfold provisionedWorld. rewrite Hs. now destruct wh. }
    destruct (Validate_cases (provisionedWorld ctx w))
      as [(_ & HE & HD) | [(j & x & Hv & Hj & Hx) | (j & x & Hv & Hj & Hx)]].
    + exfalso. rewrite <- Hrule in Hi. destruct which; cbn in Hi.
      * rewrite Forall_lookup in HE. specialize (HE _ _ Hi). cbn in HE. congruence.
      * rewrite Forall_lookup in HD. specialize (HD _ _ Hi). cbn in HD. congruence.
    + exists enable_at, j, x. rewrite <- Hrule. auto.
    + exists disable_at, j, x. rewrite <- Hrule. auto.
Qed.
End EmptyRule.

(* ================================================================== *)
(** ** The scenarios of the specification and instances of the theorems *)
(* ================================================================== *)

Module Scenarios.
#[local] Existing Instance Tokens.dispenser.
#[local] Existing Instance Examples.gx.

Definition ctx : caddy.Context := caddy.mkContext (zap.mkLogger zap.DebugLevel).
Definition lg : zap.Logger := zap.mkLogger zap.DebugLevel.

Definition world (enable disable : list string) : World :=
  mkWorld (mkCronMatcher enable disable (Some lg)) [].

Definition matchAt (w : World) (now : time.Time) : Res bool :=
  fst (Match (fun _ => now) Examples.r w).

(** Daily 10:00 to 11:00, asked on 2024-11-01 at 10:30, 12:30, 10:00 and
    11:00. *)
Example daily_window :
  map (matchAt (world ["0 10 * * *"] ["0 11 * * *"]))
      [1730457000; 1730464200; 1730455200; 1730458800]
  = map Done [true; false; true; false].
Proof. vm_compute. reflexivity. Qed.

(** Sunday 00:00 to Monday 00:00, asked on Sunday 2024-11-03 at 14:00, on
    Monday at 00:00 and on Tuesday at 00:00. *)
Example sunday_window :
  map (matchAt (world ["0 0 * * SUN"] ["0 0 * * MON"]))
      [1730642400; 1730678400; 1730764800]
  = map Done [true; false; false].
Proof. vm_compute. reflexivity. Qed.

(** Two windows, asked on Friday at 23:00, on Sunday at 23:30 and on
    Friday at 23:30. *)
Example two_windows :
  map (matchAt (world ["45 22 * * 1-5"; "15 23 * * 0,6"] ["15 23 * * 1-5"; "45 23 * * 0,6"]))
      [1730502000; 1730676600; 1730503800]
  = map Done [true; true; false].
Proof. vm_compute. reflexivity. Qed.

(** No pairs at all: [Provision] refuses. *)
Example no_pairs : fst (Provision ctx (mkWorld (mkCronMatcher [] [] None) []))
                   = Done (Some ErrAtLeastOne).
Proof. reflexivity. Qed.

(** A matcher block of two lines. *)
Example parse_two_lines :
  self (snd (UnmarshalCaddyfile
               (Tokens.start [["cron"; "0 10 * * *"; "0 11 * * *"];
                              ["cron"; "0 15 * * 0,6"; "0 16 * * 0,6"]])
               (mkWorld (mkCronMatcher [] [] None) [])))
  = mkCronMatcher ["0 10 * * *"; "0 15 * * 0,6"] ["0 11 * * *"; "0 16 * * 0,6"] None.
Proof. reflexivity. Qed.

(** A line with one argument ends the parse with an error. *)
Example parse_one_argument :
  fst (UnmarshalCaddyfile (Tokens.start [["cron"; "0 10 * * *"]])
                          (mkWorld (mkCronMatcher [] [] None) []))
  = Done (Some (ErrLibrary
       "each 'cron' block must have exactly 2 arguments: 'enable_at' and 'disable_at'"),
          Tokens.mkCursor (Some 1%nat) []).
Proof. reflexivity. Qed.

(** The pair [("", "0 9 * * *")]: [Provision] accepts it, and [Validate]
    answers with the error it has for any rule that is not valid, here
    next to the one for a malformed rule. *)
Lemma empty_rule_counterexample :
  fst (Provision ctx (mkWorld (mkCronMatcher [""] ["0 9 * * *"] None) [])) = Done None
  /\ fst (Validate (provisionedWorld ctx (mkWorld (mkCronMatcher [""] ["0 9 * * *"] None) [])))
     = Done (Some (ErrInvalidFormat enable_at 0 ""))
  /\ fst (Validate (provisionedWorld ctx
                      (mkWorld (mkCronMatcher ["every day"] ["0 9 * * *"] None) [])))
     = Done (Some (ErrInvalidFormat enable_at 0 "every day")).
Proof. repeat split; vm_compute; reflexivity. Qed.
End Scenarios.

Module Instances.
#[local] Existing Instance Tokens.dispenser.
#[local] Existing Instance Examples.gx.
Import Scenarios.

Ltac ready := split; [eexists; reflexivity | reflexivity].

(** 2024-11-01 10:30 in the window that the 10:00 tick opened. *)
Lemma matchPair_membership_witness :
  fst (matchPair 1730457000 0 (world ["0 10 * * *"] ["0 11 * * *"])) = Done (Return true)
  <-> 1730457000 = 1730455200 \/ (1730457000 > 1730455200 /\ 1730457000 < 1730458800).
Proof.
  apply (matchPair_membership _ lg 0 "0 10 * * *" "0 11 * * *"); reflexivity.
Defined.

(** A rule of the table is not due at [u]: its offsets are known, and
    [u] lies strictly between two ticks. *)
Ltac not_due :=
  let s := fresh "s" in let o := fresh "o" in
  let Hs := fresh "Hs" in let Ho := fresh "Ho" in let Hm := fresh "Hm" in
  intros (s & Hs & o & Ho & Hm); injection Hs as <-;
  apply list_elem_of_singleton in Ho; subst o;
  cbn [Timetable.period Timetable.daily] in Hm;
  apply TimetableFacts.multiple_iff in Hm; [destruct Hm; lia | lia].

Ltac is_due o :=
  eexists; split; [reflexivity|]; exists o; split; [left | reflexivity].

(** The daily window of 2024-11-01, from 10:00 to 11:00. *)
Lemma window_boundaries_witness :
  Timetable.dueRule Timetable.rules "0 10 * * *" 1730455200
  /\ Timetable.dueRule Timetable.rules "0 11 * * *" 1730458800
  /\ fst (Match (fun _ => 1730455200) Examples.r (world ["0 10 * * *"] ["0 11 * * *"]))
     = Done true
  /\ fst (Match (fun _ => 1730458800) Examples.r (world ["0 10 * * *"] ["0 11 * * *"]))
     = Done false.
Proof.
  assert (Hs : Timetable.dueRule Timetable.rules "0 10 * * *" 1730455200) by is_due 36000.
  assert (He : Timetable.dueRule Timetable.rules "0 11 * * *" 1730458800) by is_due 39600.
  split; [exact Hs|]. split; [exact He|].
  destruct (window_boundaries (Timetable.dueRule Timetable.rules)
              (TimetableFacts.contract Timetable.rules)
              "0 10 * * *" "0 11 * * *" 1730455200 1730458800 lg [] Examples.r)
    as (H0 & H1 & _); auto.
  - lia.
  - intros u Hu. not_due.
  - intros u Hu. not_due.
Defined.

(** Two pairs in either order, on 2024-11-03 at 15:30. *)
Lemma Match_or_of_pairs_witness :
  fst (Match (fun _ => 1730647800) Examples.r
         (world ["0 10 * * 1-5"; "0 15 * * 0,6"] ["0 11 * * 1-5"; "0 16 * * 0,6"]))
  = Done (anyPairMatches 1730647800
            [("0 10 * * 1-5", "0 11 * * 1-5"); ("0 15 * * 0,6", "0 16 * * 0,6")])
  /\ fst (Match (fun _ => 1730647800) Examples.r
            (world ["0 15 * * 0,6"; "0 10 * * 1-5"] ["0 16 * * 0,6"; "0 11 * * 1-5"]))
     = fst (Match (fun _ => 1730647800) Examples.r
              (world ["0 10 * * 1-5"; "0 15 * * 0,6"] ["0 11 * * 1-5"; "0 16 * * 0,6"])).
Proof.
  apply (Match_or_of_pairs (fun _ => 1730647800) Examples.r Examples.r
           (world ["0 10 * * 1-5"; "0 15 * * 0,6"] ["0 11 * * 1-5"; "0 16 * * 0,6"])
           (world ["0 15 * * 0,6"; "0 10 * * 1-5"] ["0 16 * * 0,6"; "0 11 * * 1-5"]));
    [ready | ready | apply perm_swap].
Defined.


(** The pair [("", "0 9 * * *")]. *)
Lemma empty_rule_is_invalid_format_witness :
  fst (Provision ctx (mkWorld (mkCronMatcher [""] ["0 9 * * *"] None) [])) = Done None
  /\ exists which' j expr,
       fst (Validate (provisionedWorld ctx (mkWorld (mkCronMatcher [""] ["0 9 * * *"] None) [])))
       = Done (Some (ErrInvalidFormat which' j expr))
       /\ ruleAt (mkCronMatcher [""] ["0 9 * * *"] None) which' j = Some expr
       /\ gronx.IsValid expr = false.
Proof.
  apply (empty_rule_is_invalid_format ctx
           (mkWorld (mkCronMatcher [""] ["0 9 * * *"] None) []) enable_at 0);
    reflexivity.
Defined.

(** Two requests and two logs, the same matcher and the same instant. *)
Lemma Match_deterministic_witness :
  fst (Match (fun _ => 1730457000) (http.mkRequest "POST" "http://example.org")
         (mkWorld (mkCronMatcher ["0 10 * * *"] ["0 11 * * *"] (Some lg))
                  [zap.mkEntry zap.InfoLevel "earlier entry" []]))
  = fst (Match (fun _ => 1730457000) Examples.r (world ["0 10 * * *"] ["0 11 * * *"]))
  /\ self (snd (Match (fun _ => 1730457000) Examples.r (world ["0 10 * * *"] ["0 11 * * *"])))
     = self (world ["0 10 * * *"] ["0 11 * * *"])
  /\ fst (Match (fun _ => 1730457000) (http.mkRequest "POST" "http://example.org")
            (snd (Match (fun _ => 1730457000) Examples.r
                    (world ["0 10 * * *"] ["0 11 * * *"]))))
     = fst (Match (fun _ => 1730457000) Examples.r (world ["0 10 * * *"] ["0 11 * * *"])).
Proof.
  apply (Match_deterministic (fun _ => 1730457000) (fun _ => 1730457000)); reflexivity.
Defined.

(** A block of one good line, parsed into an empty matcher. *)
Lemma UnmarshalCaddyfile_keeps_pairs_witness :
  length (@nil string) = length (@nil string)
  /\ UnmarshalCaddyfile (Tokens.start [["cron"; "0 10 * * *"; "0 11 * * *"]])
       (mkWorld (mkCronMatcher [] [] None) [])
     = (Done (None, Tokens.mkCursor (Some 1%nat) []),
        mkWorld (mkCronMatcher ["0 10 * * *"] ["0 11 * * *"] None) []).
Proof.
  split; [reflexivity|].
  destruct (UnmarshalCaddyfile_keeps_pairs
              (Tokens.start [["cron"; "0 10 * * *"; "0 11 * * *"]])
              (mkWorld (mkCronMatcher [] [] None) []) eq_refl)
    as (_ & Hblock & _ & Hrun & _).
  apply (Hrun [("0 10 * * *", "0 11 * * *")] None (Tokens.mkCursor (Some 1%nat) [])).
  eapply Parses_pair; [reflexivity | reflexivity |]. apply Parses_end. reflexivity.
Defined.
End Instances.


(* ================================================================== *)
(** * Further properties of the methods *)
(* ================================================================== *)

(** ** [Validate]: what it needs and which rule it reports *)

Section ValidateRun.
Context {G : gronx.Evaluator}.

(** The first rule of [l] that fails [gronx.IsValid], as the error that a
    loop of [Validate] numbering the rules from [k] makes of it. *)
Fixpoint firstInvalid (which : Directive) (k : nat) (l : list string) : option error :=
  match l with
  | [] => None
  | expr :: l' =>
      if gronx.IsValid expr then firstInvalid which (S k) l'
      else Some (ErrInvalidFormat which k expr)
  end.

Lemma forRange_checkRule_run which (l : list string) : forall k w,
  forRange (checkRule which) (zip (seq k (length l)) l) w
  = (Done (match firstInvalid which k l with
           | Some e => Return (Some e)
           | None => Continue
           end), w).
Proof.
  induction l as [|expr l IH]; intros k w; [reflexivity|].
  cbn [length seq zip zip_with forRange firstInvalid]. unfold bind, checkRule.
  destruct (gronx.IsValid expr); cbn [negb ret]; [apply IH | reflexivity].
Qed.

Lemma Validate_run w :
  Validate w
  = (Done (match firstInvalid enable_at 0 (EnableAt (self w)) with
           | Some e => Some e
           | None => firstInvalid disable_at 0 (DisableAt (self w))
           end), w).
Proof.
  unfold Validate, enumerate, indices, bind, getSelf.
  rewrite forRange_checkRule_run.
  destruct (firstInvalid enable_at 0 (EnableAt (self w))); [reflexivity|].
  rewrite forRange_checkRule_run.
  destruct (firstInvalid disable_at 0 (DisableAt (self w))); reflexivity.
Qed.

Lemma firstInvalid_None which l : forall k,
  firstInvalid which k l = None -> Forall (fun expr => gronx.IsValid expr = true) l.
Proof.
  induction l as [|expr l IH]; intros k; cbn; [constructor|].
  destruct (gronx.IsValid expr) eqn:Hv; [|discriminate].
  intros H. constructor; [exact Hv | eapply IH; exact H].
Qed.

Lemma firstInvalid_Some which l : forall k which' i expr,
  firstInvalid which k l = Some (ErrInvalidFormat which' i expr) ->
  which' = which /\ (k <= i)%nat /\ l !! (i - k)%nat = Some expr
  /\ gronx.IsValid expr = false
  /\ Forall (fun x => gronx.IsValid x = true) (take (i - k) l).
Proof.
  induction l as [|x l IH]; intros k which' i expr; cbn [firstInvalid]; [discriminate|].
  destruct (gronx.IsValid x) eqn:Hv.
  - intros H. destruct (IH _ _ _ _ H) as (-> & Hk & Hi & Hbad & Hbefore).
    replace (i - k)%nat with (S (i - S k)) by lia. cbn.
    repeat split; auto; try lia.
  - intros [= <- <- <-]. rewrite Nat.sub_diag. cbn. repeat split; auto.
Qed.

(** [Validate] reads the two slices and nothing else: it returns on every
    matcher (it needs no logger and no equal lengths, so it can run before
    [Provision]), it leaves the receiver and the log as they are, and two
    matchers with the same rules get the same answer. *)
Theorem Validate_reads_rules_only (w : World) :
  snd (Validate w) = w
  /\ (exists o, fst (Validate w) = Done o)
  /\ (forall w', EnableAt (self w') = EnableAt (self w) ->
                 DisableAt (self w') = DisableAt (self w) ->
                 fst (Validate w') = fst (Validate w)).
Proof.
  rewrite !Validate_run. split; [reflexivity|]. split; [eauto|].
  intros w' HE HD. rewrite Validate_run. cbn. now rewrite HE, HD.
Qed.

(** The rule [Validate] reports is the first invalid one: every rule of the
    same slice before the reported index is valid, and an error for
    [disable_at] is returned only when every [enable_at] rule is valid. *)
Theorem Validate_first_invalid (w : World) (which : Directive) (i : nat) (expr : string) :
  fst (Validate w) = Done (Some (ErrInvalidFormat which i expr)) ->
  (forall j x, (j < i)%nat -> ruleAt (self w) which j = Some x -> gronx.IsValid x = true)
  /\ (which = disable_at ->
      forall j x, EnableAt (self w) !! j = Some x -> gronx.IsValid x = true).
Proof.
  rewrite Validate_run. cbn [fst].
  destruct (firstInvalid enable_at 0 (EnableAt (self w))) as [e|] eqn:HE.
  - intros [= ->]. apply firstInvalid_Some in HE as (-> & _ & _ & _ & Hbefore).
    rewrite Nat.sub_0_r in Hbefore. split; [|discriminate].
    intros j x Hj Hx. cbn in Hx. rewrite Forall_lookup in Hbefore.
    apply (Hbefore j). rewrite lookup_take_lt by lia. exact Hx.
  - intros [= HD]. apply firstInvalid_None in HE.
    apply firstInvalid_Some in HD as (-> & _ & _ & _ & Hbefore).
    rewrite Nat.sub_0_r in Hbefore. split.
    + intros j x Hj Hx. cbn in Hx. rewrite Forall_lookup in Hbefore.
      apply (Hbefore j). rewrite lookup_take_lt by lia. exact Hx.
    + intros _ j x Hx. rewrite Forall_lookup in HE. exact (HE j x Hx).
Qed.
End ValidateRun.

(** ** [Provision]: the logger it installs and what it logs *)

(** The entry [Provision] logs for the pair at index [i]. *)
Definition configuredEntry (i : nat) (enableAt disableAt : string) : zap.Entry :=
  zap.mkEntry zap.InfoLevel
    ("CronMatcher configured (set " +:+ pretty (i + 1)%nat +:+ ", OR'ed together)")
    [zap.String "EnableAt" enableAt; zap.String "DisableAt" disableAt].

(** The log after the entries of the pairs [ps], numbered from [k], went
    through the logger [lg]. *)
Fixpoint configuredLog (lg : zap.Logger) (k : nat) (ps : list (string * string))
    (sk : list zap.Entry) : list zap.Entry :=
  match ps with
  | [] => sk
  | (e, d) :: ps' => configuredLog lg (S k) ps' (zap.write lg (configuredEntry k e d) sk)
  end.

Lemma logConfigured_run lg i e d w :
  logger (self w) = Some lg ->
  EnableAt (self w) !! i = Some e ->
  DisableAt (self w) !! i = Some d ->
  logConfigured i w
  = (Done Continue, mkWorld (self w) (zap.write lg (configuredEntry i e d) (sink w))).
Proof.
  intros Hl He Hd. unfold logConfigured, bind, getSelf, index, log.
  rewrite He. cbn. rewrite Hd. cbn. now rewrite Hl.
Qed.

Lemma forRange_logConfigured_run lg (es : list string) : forall ds preE preD cm sk,
  logger cm = Some lg ->
  EnableAt cm = preE ++ es -> DisableAt cm = preD ++ ds ->
  length preE = length preD -> length es = length ds ->
  forRange logConfigured (seq (length preE) (length es)) (mkWorld cm sk)
  = (Done Continue, mkWorld cm (configuredLog lg (length preE) (zip es ds) sk)).
Proof.
  induction es as [|e es IH]; intros [|d ds] preE preD cm sk Hl HE HD Hpre Hlen;
    try discriminate; [reflexivity|].
  cbn [length seq forRange zip zip_with configuredLog]. unfold bind.
  assert (He : EnableAt cm !! length preE = Some e).
  { rewrite HE. now apply list_lookup_middle. }
  assert (Hd : DisableAt cm !! length preE = Some d).
  { rewrite HD. now apply list_lookup_middle. }
  rewrite (logConfigured_run lg (length preE) e d (mkWorld cm sk) Hl He Hd).
  cbn [self sink].
  specialize (IH ds (preE ++ [e]) (preD ++ [d]) cm
                 (zap.write lg (configuredEntry (length preE) e d) sk)).
  rewrite !length_app in IH. cbn [length] in IH.
  rewrite !Nat.add_1_r in IH.
  apply IH; auto; try (now rewrite <- app_assoc); cbn in *; lia.
Qed.

(** The world [Provision] leaves when it returns no error. *)
Lemma Provision_run ctx w :
  fst (Provision ctx w) = Done None ->
  snd (Provision ctx w)
  = mkWorld (mkCronMatcher (EnableAt (self w)) (DisableAt (self w)) (Some (caddy.Logger ctx)))
            (configuredLog (caddy.Logger ctx) 0 (pairs (self w)) (sink w)).
Proof.
  unfold Provision. unfold bind, getSelf, putSelf. cbn [self sink EnableAt DisableAt].
  destruct ((length (EnableAt (self w)) =? 0)%nat || (length (DisableAt (self w)) =? 0)%nat);
    [discriminate|].
  destruct (Nat.eqb_spec (length (EnableAt (self w))) (length (DisableAt (self w))))
    as [Hlen|Hlen]; cbn [negb]; [|discriminate].
  intros _. unfold indices.
  rewrite (forRange_logConfigured_run (caddy.Logger ctx) (EnableAt (self w))
             (DisableAt (self w)) [] []); auto.
Qed.

Lemma configuredLog_enabled lg (ps : list (string * string)) : forall k sk,
  zap.Enabled lg zap.InfoLevel = true ->
  configuredLog lg k ps sk
  = sk ++ imap (fun j p => configuredEntry (k + j) (fst p) (snd p)) ps.
Proof.
  induction ps as [|[e d] ps IH]; intros k sk Hen; cbn [configuredLog].
  - cbn. now rewrite app_nil_r.
  - rewrite IH by assumption. unfold zap.write. cbn [zap.level configuredEntry].
    rewrite Hen, imap_cons, <- app_assoc. cbn [app fst snd]. rewrite Nat.add_0_r.
    do 2 f_equal. apply imap_ext. intros j p _. cbn. f_equal. lia.
Qed.

Lemma configuredLog_disabled lg (ps : list (string * string)) : forall k sk,
  zap.Enabled lg zap.InfoLevel = false -> configuredLog lg k ps sk = sk.
Proof.
  induction ps as [|[e d] ps IH]; intros k sk Hen; cbn [configuredLog]; [reflexivity|].
  rewrite IH by assumption. unfold zap.write. cbn [zap.level configuredEntry].
  now rewrite Hen.
Qed.

(** [Provision] installs the logger of the context whether it returns an
    error or not, never changes a rule, and asked again with the same
    context it gives the same answer and leaves the same matcher. *)
Theorem Provision_installs_logger (ctx : caddy.Context) (w : World) :
  self (provisionedWorld ctx w)
  = mkCronMatcher (EnableAt (self w)) (DisableAt (self w)) (Some (caddy.Logger ctx))
  /\ fst (Provision ctx (provisionedWorld ctx w)) = fst (Provision ctx w)
  /\ self (provisionedWorld ctx (provisionedWorld ctx w)) = self (provisionedWorld ctx w).
Proof.
  unfold provisionedWorld.
  destruct (Provision_result ctx w) as [Hr Hs].
  destruct (Provision_result ctx (snd (Provision ctx w))) as [Hr' Hs'].
  rewrite Hr', Hs', Hr, Hs. cbn. auto.
Qed.

(** The log of [Provision]: when it returns an error it has logged
    nothing; when it returns no error it has logged one Info entry for
    each pair, in the order of the pairs and numbered from 1, with both
    rules of the pair (nothing if the logger is not enabled for Info). *)
Theorem Provision_log (ctx : caddy.Context) (w : World) :
  (forall e, fst (Provision ctx w) = Done (Some e) ->
     sink (provisionedWorld ctx w) = sink w)
  /\ (fst (Provision ctx w) = Done None ->
      zap.Enabled (caddy.Logger ctx) zap.InfoLevel = true ->
      sink (provisionedWorld ctx w)
      = sink w ++ imap (fun j p => configuredEntry j (fst p) (snd p)) (pairs (self w)))
  /\ (fst (Provision ctx w) = Done None ->
      zap.Enabled (caddy.Logger ctx) zap.InfoLevel = false ->
      sink (provisionedWorld ctx w) = sink w).
Proof.
  unfold provisionedWorld. split; [|split].
  - intros e. unfold Provision. unfold bind, getSelf, putSelf.
    cbn [self sink EnableAt DisableAt].
    destruct (_ || _); [reflexivity|]. destruct (negb _); [reflexivity|].
    destruct (forRange _ _ _) as [[c|p] w']; discriminate.
  - intros Hok Hen. rewrite (Provision_run ctx w Hok). cbn [sink].
    now rewrite configuredLog_enabled.
  - intros Hok Hen. rewrite (Provision_run ctx w Hok). cbn [sink].
    now rewrite configuredLog_disabled.
Qed.

(** ** [Match]: what one pair does to the log, and the loop in two parts *)

Lemma forRange_app {I A} (body : I -> M (Ctl A)) (xs ys : list I) (w : World) :
  forRange body (xs ++ ys) w
  = match forRange body xs w with
    | (Done Continue, w') => forRange body ys w'
    | other => other
    end.
Proof.
  revert w. induction xs as [|x xs IH]; intros w; [reflexivity|].
  cbn [app forRange]. unfold bind. destruct (body x w) as [[[|a]|p] w1]; auto.
Qed.

(** The entries [Match] writes. *)
Definition lastEnableFailed (enableAt : string) (err : error) : zap.Entry :=
  zap.mkEntry zap.ErrorLevel "Failed to compute last enable time"
    [zap.String "EnableAt" enableAt; zap.Error err].

Definition nextDisableFailed (disableAt : string) (err : error) : zap.Entry :=
  zap.mkEntry zap.ErrorLevel "Failed to compute next disable time"
    [zap.String "DisableAt" disableAt; zap.Error err].

Definition evaluating (enableAt disableAt : string) (now lastEnable nextDisable : time.Time)
    : zap.Entry :=
  zap.mkEntry zap.DebugLevel "Evaluating cron schedule"
    [zap.String "EnableAt" enableAt; zap.String "DisableAt" disableAt;
     zap.Time "now" now; zap.Time "last_enable" lastEnable;
     zap.Time "next_disable" nextDisable].

Definition matched (now lastEnable nextDisable : time.Time) : zap.Entry :=
  zap.mkEntry zap.DebugLevel "Request matches within the enable/disable range"
    [zap.Time "now" now; zap.Time "last_enable" lastEnable;
     zap.Time "next_disable" nextDisable].

Definition notMatched (now : time.Time) : zap.Entry :=
  zap.mkEntry zap.DebugLevel "Request did not match any cron schedule" [zap.Time "now" now].

Section MatchRun.
Context {G : gronx.Evaluator}.

(** The loop body of [Match] as a function of what it reads: the logger,
    the start rule at index [i], the end rule at index [i] if there is
    one, and the log. *)
Definition pairStep (lg : zap.Logger) (now : time.Time) (i lenDisableAt : nat)
    (enableAt : string) (disableAt : option string) (sk : list zap.Entry)
    : Res (Ctl bool) * list zap.Entry :=
  match gronx.PrevTickBefore enableAt now true with
  | (_, Some err) => (Done Continue, zap.write lg (lastEnableFailed enableAt err) sk)
  | (lastEnable, None) =>
      match disableAt with
      | None => (Panicked (IndexOutOfRange i lenDisableAt), sk)
      | Some disableAt =>
          match gronx.NextTickAfter disableAt lastEnable false with
          | (_, Some err) =>
              (Done Continue, zap.write lg (nextDisableFailed disableAt err) sk)
          | (nextDisable, None) =>
              let sk1 :=
                zap.write lg (evaluating enableAt disableAt now lastEnable nextDisable) sk in
              if inWindow now lastEnable nextDisable
              then (Done (Return true), zap.write lg (matched now lastEnable nextDisable) sk1)
              else (Done Continue, sk1)
          end
      end
  end.

Lemma matchPair_run now i w lg s :
  logger (self w) = Some lg ->
  EnableAt (self w) !! i = Some s ->
  matchPair now i w
  = (fst (pairStep lg now i (length (DisableAt (self w))) s (DisableAt (self w) !! i) (sink w)),
     mkWorld (self w)
       (snd (pairStep lg now i (length (DisableAt (self w))) s (DisableAt (self w) !! i)
               (sink w)))).
Proof.
  intros Hl Hs. unfold matchPair, pairStep, bind, getSelf, index.
  rewrite Hs. cbn.
  destruct (gronx.PrevTickBefore s now true) as [lastEnable [err|]].
  { unfold log. rewrite Hl. reflexivity. }
  destruct (DisableAt (self w) !! i) as [e|]; cbn; [|destruct w; reflexivity].
  destruct (gronx.NextTickAfter e lastEnable false) as [nextDisable [err|]].
  { unfold log. rewrite Hl. reflexivity. }
  unfold log at 1. rewrite Hl. cbn.
  destruct (inWindow now lastEnable nextDisable); [|reflexivity].
  unfold log. cbn. rewrite Hl. reflexivity.
Qed.

(** With the end rule there, the length of [DisableAt] plays no part. *)
Lemma pairStep_in_range lg now i n n' s e sk :
  pairStep lg now i n s (Some e) sk = pairStep lg now i n' s (Some e) sk.
Proof. unfold pairStep. destruct (gronx.PrevTickBefore s now true) as [? [?|]]; reflexivity. Qed.

(** A pair whose evaluation fails is logged as an error and skipped.  When
    the start rule fails, [cm.DisableAt[i]] is not read at all: the pair
    is skipped even if it has no end rule.  When the end rule fails, the
    pair is skipped in the same way. *)
Theorem matchPair_logs_failure (now : time.Time) (i : nat) (w : World)
    (lg : zap.Logger) (enableAt : string) :
  logger (self w) = Some lg ->
  EnableAt (self w) !! i = Some enableAt ->
  (forall t err,
     gronx.PrevTickBefore enableAt now true = (t, Some err) ->
     matchPair now i w
     = (Done Continue,
        mkWorld (self w) (zap.write lg (lastEnableFailed enableAt err) (sink w))))
  /\ (forall lastEnable disableAt t err,
        gronx.PrevTickBefore enableAt now true = (lastEnable, None) ->
        DisableAt (self w) !! i = Some disableAt ->
        gronx.NextTickAfter disableAt lastEnable false = (t, Some err) ->
        matchPair now i w
        = (Done Continue,
           mkWorld (self w) (zap.write lg (nextDisableFailed disableAt err) (sink w)))).
Proof.
  intros Hl Hs. rewrite (matchPair_run now i w lg enableAt Hl Hs). unfold pairStep. split.
  - intros t err ->. reflexivity.
  - intros lastEnable disableAt t err -> -> ->. reflexivity.
Qed.

(** Without a logger every path of [Match] ends in a panic: each one
    reaches a log call or, before it, an index outside [DisableAt].  A
    matcher that [Provision] has not seen cannot be queried. *)
Theorem Match_without_logger_panics (nowFunc : unit -> time.Time) (r : http.Request)
    (w : World) :
  logger (self w) = None ->
  exists p, Match nowFunc r w = (Panicked p, w).
Proof.
  intros Hl. unfold Match. cbv zeta. unfold bind at 1. cbn [getSelf]. unfold bind at 1.
  unfold indices. destruct (EnableAt (self w)) as [|s E] eqn:HE.
  - cbn. unfold bind, log. rewrite Hl. eauto.
  - cbn [length seq forRange]. unfold bind at 1.
    assert (Hp : exists p, matchPair (nowFunc tt) 0 w = (Panicked p, w)).
    { unfold matchPair, bind, getSelf, index. rewrite HE. cbn.
      destruct (gronx.PrevTickBefore s (nowFunc tt) true) as [lastEnable [err|]].
      { unfold log. rewrite Hl. eauto. }
      destruct (DisableAt (self w) !! 0%nat) as [e|]; cbn; [|eauto].
      destruct (gronx.NextTickAfter e lastEnable false) as [nextDisable [err|]].
      { unfold log. rewrite Hl. eauto. }
      unfold log at 1. rewrite Hl. eauto. }
    destruct Hp as [p ->]. eauto.
Qed.
End MatchRun.

(** ** [Match] on slices of different lengths *)

Section MatchLengths.
Context {G : gronx.Evaluator}.

(** OR over the indices that both slices have is OR over the zipped
    pairs, whatever the lengths. *)
Lemma existsb_pairAt_common cm now :
  existsb (pairAt cm now)
          (seq 0 (Nat.min (length (EnableAt cm)) (length (DisableAt cm))))
  = anyPairMatches now (pairs cm).
Proof.
  unfold pairAt, anyPairMatches, pairs.
  generalize (EnableAt cm) (DisableAt cm). intros E D.
  enough (forall k,
    existsb (fun i => match E !! (i - k)%nat, D !! (i - k)%nat with
                      | Some s, Some e => pairMatches now s e
                      | _, _ => false end) (seq k (Nat.min (length E) (length D)))
    = existsb (fun p => pairMatches now (fst p) (snd p)) (zip E D)) as Hk.
  { rewrite <- (Hk 0%nat). apply existsb_agree. intros i _. now rewrite Nat.sub_0_r. }
  revert D. induction E as [|s E IH]; intros [|e D] k; try reflexivity.
  cbn [length Nat.min seq existsb zip zip_with fst snd].
  rewrite Nat.sub_diag. cbn [lookup list_lookup].
  f_equal. rewrite <- (IH D (S k)).
  apply existsb_agree. intros i Hi. apply in_seq in Hi.
  replace (i - k)%nat with (S (i - S k)) by lia. reflexivity.
Qed.

(** The loop of [Match] over the indices that both slices have. *)
Lemma forRange_matchPair_common now lg w :
  logger (self w) = Some lg ->
  fst (forRange (matchPair now)
         (seq 0 (Nat.min (length (EnableAt (self w))) (length (DisableAt (self w))))) w)
  = Done (if anyPairMatches now (pairs (self w)) then Return true else Continue)
  /\ self (snd (forRange (matchPair now)
         (seq 0 (Nat.min (length (EnableAt (self w))) (length (DisableAt (self w))))) w))
     = self w.
Proof.
  intros Hl. split.
  - rewrite (forRange_matchPair now lg _ w Hl).
    + now rewrite existsb_pairAt_common.
    + apply Forall_forall. intros i Hi. apply elem_of_seq in Hi.
      split; apply lookup_lt_is_Some; lia.
  - apply (readonly_forRange (matchPair now) _ (readonly_matchPair now) w).
Qed.

(** End rules beyond the last start rule are never read: with a logger
    and at least as many end rules as start rules, [Match] returns the OR
    over the zipped pairs.  With no start rule at all it returns [false]. *)
Theorem Match_ignores_surplus_disable (nowFunc : unit -> time.Time) (r : http.Request)
    (w : World) :
  is_Some (logger (self w)) ->
  (length (EnableAt (self w)) <= length (DisableAt (self w)))%nat ->
  fst (Match nowFunc r w) = Done (anyPairMatches (nowFunc tt) (pairs (self w)))
  /\ (EnableAt (self w) = [] -> fst (Match nowFunc r w) = Done false).
Proof.
  intros [lg Hl] Hle.
  assert (Hm : fst (Match nowFunc r w) = Done (anyPairMatches (nowFunc tt) (pairs (self w)))).
  { unfold Match. cbv zeta. unfold bind at 1. cbn [getSelf]. unfold bind, indices.
    destruct (forRange_matchPair_common (nowFunc tt) lg w Hl) as [Hr Hself].
    rewrite Nat.min_l in Hr, Hself by exact Hle.
    destruct (forRange _ _ w) as [res w1]. cbn in Hr, Hself. subst res.
    destruct (anyPairMatches _ _); [reflexivity|].
    unfold log. rewrite Hself, Hl. reflexivity. }
  split; [exact Hm|]. intros HE. rewrite Hm. unfold pairs. now rewrite HE.
Qed.

(** A start rule without an end rule: when no pair before it holds the
    instant and the start rule evaluates, [Match] panics on
    [cm.DisableAt[i]].  This is what the length check of [Provision] keeps
    away. *)
Theorem Match_missing_disable_panics (nowFunc : unit -> time.Time) (r : http.Request)
    (w : World) (enableAt : string) :
  is_Some (logger (self w)) ->
  EnableAt (self w) !! length (DisableAt (self w)) = Some enableAt ->
  anyPairMatches (nowFunc tt) (pairs (self w)) = false ->
  snd (gronx.PrevTickBefore enableAt (nowFunc tt) true) = None ->
  fst (Match nowFunc r w)
  = Panicked (IndexOutOfRange (length (DisableAt (self w))) (length (DisableAt (self w)))).
Proof.
  intros [lg Hl] Hs Hnone Hok.
  pose proof (lookup_lt_Some _ _ _ Hs) as Hlt.
  unfold Match. cbv zeta. unfold bind at 1. cbn [getSelf]. unfold bind at 1. unfold indices.
  replace (length (EnableAt (self w)))
    with (length (DisableAt (self w))
          + S (length (EnableAt (self w)) - S (length (DisableAt (self w)))))%nat by lia.
  rewrite seq_app, forRange_app.
  destruct (forRange_matchPair_common (nowFunc tt) lg w Hl) as [Hr Hself].
  rewrite Nat.min_r in Hr, Hself by lia. rewrite Hnone in Hr.
  destruct (forRange _ (seq 0 (length (DisableAt (self w)))) w) as [res w1].
  cbn in Hr, Hself. subst res.
  cbn [seq forRange Nat.add]. unfold bind at 1.
  rewrite (matchPair_run (nowFunc tt) _ w1 lg enableAt); rewrite ?Hself; auto.
  rewrite (lookup_ge_None_2 (DisableAt (self w))) by lia.
  unfold pairStep.
  destruct (gronx.PrevTickBefore enableAt (nowFunc tt) true) as [t [err|]];
    [discriminate|reflexivity].
Qed.
End MatchLengths.

(** ** [Match]: the pairs after the first match, and sets put together *)

Section MatchCompose.
Context {G : gronx.Evaluator}.

(** Two worlds with the same logger and log, and the same rules at the
    indices [ix], go through the loop of [Match] over [ix] alike. *)
Lemma forRange_matchPair_agree now lg (ix : list nat) : forall wa wb,
  logger (self wa) = Some lg -> logger (self wb) = Some lg ->
  sink wa = sink wb ->
  Forall (fun i => is_Some (EnableAt (self wa) !! i)
                   /\ is_Some (DisableAt (self wa) !! i)
                   /\ EnableAt (self wb) !! i = EnableAt (self wa) !! i
                   /\ DisableAt (self wb) !! i = DisableAt (self wa) !! i) ix ->
  fst (forRange (matchPair now) ix wa) = fst (forRange (matchPair now) ix wb)
  /\ sink (snd (forRange (matchPair now) ix wa))
     = sink (snd (forRange (matchPair now) ix wb)).
Proof.
  induction ix as [|i ix IH]; intros wa wb Hla Hlb Hsk Hix; [cbn; auto|].
  apply Forall_cons in Hix as [([s Hs] & [e He] & HsE & HsD) Hix].
  cbn [forRange]. unfold bind.
  rewrite (matchPair_run now i wa lg s Hla Hs).
  rewrite (matchPair_run now i wb lg s Hlb) by congruence.
  rewrite HsD, He, <- Hsk.
  rewrite (pairStep_in_range lg now i (length (DisableAt (self wb)))
             (length (DisableAt (self wa)))).
  destruct (pairStep lg now i (length (DisableAt (self wa))) s (Some e) (sink wa))
    as [[[|b]|p] sk']; cbn [fst snd]; auto.
Qed.

(** [Match] stops at the first pair that holds the instant: the pairs
    after it are not evaluated and not even read.  Whatever follows a set
    of pairs one of which matches (unevaluable rules, a start rule with no
    end rule), the answer is [true] and the log is the one of the set
    alone. *)
Theorem Match_stops_at_first_match (nowFunc : unit -> time.Time) (r : http.Request)
    (lg : zap.Logger) (sk : list zap.Entry) (E1 D1 E2 D2 : list string) :
  length E1 = length D1 ->
  anyPairMatches (nowFunc tt) (zip E1 D1) = true ->
  fst (Match nowFunc r (mkWorld (mkCronMatcher (E1 ++ E2) (D1 ++ D2) (Some lg)) sk))
  = Done true
  /\ sink (snd (Match nowFunc r (mkWorld (mkCronMatcher (E1 ++ E2) (D1 ++ D2) (Some lg)) sk)))
     = sink (snd (Match nowFunc r (mkWorld (mkCronMatcher E1 D1 (Some lg)) sk))).
Proof.
  intros Hlen Hany.
  pose (wa := mkWorld (mkCronMatcher (E1 ++ E2) (D1 ++ D2) (Some lg)) sk).
  pose (wb := mkWorld (mkCronMatcher E1 D1 (Some lg)) sk).
  destruct (forRange_matchPair_common (nowFunc tt) lg wb eq_refl) as [Hb _].
  destruct (forRange_matchPair_agree (nowFunc tt) lg (seq 0 (length E1)) wa wb
              eq_refl eq_refl eq_refl) as [Hfst Hsink].
  { apply Forall_forall. intros i Hi. apply elem_of_seq in Hi. cbn.
    rewrite !lookup_app_l by lia.
    repeat split; auto; apply lookup_lt_is_Some; lia. }
  unfold wa, wb in *. clear wa wb.
  unfold pairs in Hb. cbn [self EnableAt DisableAt] in Hb.
  rewrite <- Hlen, Nat.min_id, Hany in Hb.
  rewrite Hb in Hfst.
  unfold Match. cbv zeta. unfold bind, getSelf, indices.
  cbn [self EnableAt]. rewrite length_app, seq_app, forRange_app.
  destruct (forRange (matchPair (nowFunc tt)) (seq 0 (length E1))
              (mkWorld (mkCronMatcher (E1 ++ E2) (D1 ++ D2) (Some lg)) sk)) as [ra wa1].
  destruct (forRange (matchPair (nowFunc tt)) (seq 0 (length E1))
              (mkWorld (mkCronMatcher E1 D1 (Some lg)) sk)) as [rb wb1].
  cbn in Hfst, Hsink, Hb. subst ra rb. cbn. auto.
Qed.

(** Two sets of pairs put together match where either set matches. *)
Theorem Match_of_appended_sets (nowFunc : unit -> time.Time) (r : http.Request)
    (lg : zap.Logger) (sk : list zap.Entry) (E1 D1 E2 D2 : list string) :
  length E1 = length D1 -> length E2 = length D2 ->
  exists b1 b2,
    fst (Match nowFunc r (mkWorld (mkCronMatcher E1 D1 (Some lg)) sk)) = Done b1
    /\ fst (Match nowFunc r (mkWorld (mkCronMatcher E2 D2 (Some lg)) sk)) = Done b2
    /\ fst (Match nowFunc r (mkWorld (mkCronMatcher (E1 ++ E2) (D1 ++ D2) (Some lg)) sk))
       = Done (b1 || b2).
Proof.
  intros H1 H2.
  exists (anyPairMatches (nowFunc tt) (zip E1 D1)), (anyPairMatches (nowFunc tt) (zip E2 D2)).
  rewrite !Match_result.
  - unfold pairs. cbn [self EnableAt DisableAt]. repeat split.
    unfold anyPairMatches. rewrite zip_with_app by exact H1. now rewrite existsb_app.
  - split; [eexists; reflexivity|]. cbn. rewrite !length_app. lia.
  - split; [eexists; reflexivity | exact H2].
  - split; [eexists; reflexivity | exact H1].
Qed.

(** After a [Provision] that returned no error, [Match] does not panic:
    it returns the OR over the pairs the matcher was configured with,
    whatever the matcher was before (its logger may have been nil). *)
Theorem Provision_then_Match (ctx : caddy.Context) (nowFunc : unit -> time.Time)
    (r : http.Request) (w : World) :
  fst (Provision ctx w) = Done None ->
  fst (Match nowFunc r (provisionedWorld ctx w))
  = Done (anyPairMatches (nowFunc tt) (pairs (self w))).
Proof.
  intros Hok. destruct (Provision_result ctx w) as [Hr Hs].
  rewrite Hr in Hok. unfold provisionedWorld.
  rewrite Match_result; rewrite Hs.
  - reflexivity.
  - split; [eexists; reflexivity|]. cbn.
    destruct (_ || _); [discriminate|].
    destruct (Nat.eqb_spec (length (EnableAt (self w))) (length (DisableAt (self w))));
      [assumption | discriminate].
Qed.
(** The logger has no say in the answer: two matchers with the same
    rules, as many end rules as start rules, and any two loggers (any
    levels, any logs so far) answer a query alike. *)
Theorem Match_whatever_the_logger (nowFunc : unit -> time.Time) (r : http.Request)
    (w w' : World) :
  is_Some (logger (self w)) -> is_Some (logger (self w')) ->
  length (EnableAt (self w)) = length (DisableAt (self w)) ->
  EnableAt (self w') = EnableAt (self w) ->
  DisableAt (self w') = DisableAt (self w) ->
  fst (Match nowFunc r w') = fst (Match nowFunc r w).
Proof.
  intros Hl Hl' Hlen HE HD.
  rewrite !Match_result.
  - unfold pairs. now rewrite HE, HD.
  - split; assumption.
  - split; [assumption|]. now rewrite HE, HD.
Qed.
End MatchCompose.

(** ** [Match]: the levels it logs at *)

(** [m] only adds entries to the log, and every entry it adds is in [P]. *)
Definition writes (P : zap.Entry -> Prop) {A} (m : M A) : Prop :=
  forall w, exists new, sink (snd (m w)) = sink w ++ new /\ Forall P new.

Lemma writes_nothing P {A} (m : M A) : (forall w, sink (snd (m w)) = sink w) -> writes P m.
Proof. intros H w. exists []. rewrite H, app_nil_r. auto. Qed.

Lemma writes_ret P {A} (a : A) : writes P (ret a).
Proof. now apply writes_nothing. Qed.

Lemma writes_throw P {A} (p : panic) : writes P (@throw A p).
Proof. now apply writes_nothing. Qed.

Lemma writes_getSelf P : writes P getSelf.
Proof. now apply writes_nothing. Qed.

Lemma writes_index P s i : writes P (index s i).
Proof. unfold index. destruct (s !! i); [apply writes_ret | apply writes_throw]. Qed.

Lemma writes_log (P : zap.Entry -> Prop) l msg fs :
  P (zap.mkEntry l msg fs) -> writes P (log l msg fs).
Proof.
  intros HP w. unfold log. destruct (logger (self w)) as [lg|]; cbn.
  - unfold zap.write. destruct (zap.Enabled lg _).
    + eexists. split; [reflexivity|]. repeat constructor. exact HP.
    + exists []. now rewrite app_nil_r.
  - exists []. now rewrite app_nil_r.
Qed.

Lemma writes_bind P {A B} (m : M A) (k : A -> M B) :
  writes P m -> (forall a, writes P (k a)) -> writes P (bind m k).
Proof.
  intros Hm Hk w. unfold bind. destruct (Hm w) as (new & Hs & Hnew).
  destruct (m w) as [[a|p] w1]; cbn in *; [|eauto].
  destruct (Hk a w1) as (new' & Hs' & Hnew').
  exists (new ++ new'). rewrite Hs', Hs, app_assoc. split; [reflexivity|].
  apply Forall_app. auto.
Qed.

Lemma writes_forRange P {I A} (body : I -> M (Ctl A)) xs :
  (forall x, writes P (body x)) -> writes P (forRange body xs).
Proof.
  intros Hb. induction xs as [|x xs IH]; cbn [forRange].
  - apply writes_ret.
  - apply writes_bind; [apply Hb|]. intros [|a]; [exact IH | apply writes_ret].
Qed.

Ltac writes :=
  repeat first
    [ apply writes_bind; [|intro]
    | apply writes_forRange; intro
    | apply writes_ret | apply writes_throw | apply writes_getSelf
    | apply writes_index
    | apply writes_log; cbn; auto
    | match goal with
      | |- writes _ (let '(_, _) := ?p in _) => destruct p
      | |- writes _ (match ?x with _ => _ end) => destruct x
      end ].

Section MatchLog.
Context {G : gronx.Evaluator}.

(** [Match] only adds to the log, and only entries at the Debug and the
    Error level: nothing a query does shows at the Info level. *)
Theorem Match_log_levels (nowFunc : unit -> time.Time) (r : http.Request) (w : World) :
  exists new,
    sink (snd (Match nowFunc r w)) = sink w ++ new
    /\ Forall (fun e => zap.level e = zap.DebugLevel \/ zap.level e = zap.ErrorLevel) new.
Proof.
  revert w.
  change (writes (fun e => zap.level e = zap.DebugLevel \/ zap.level e = zap.ErrorLevel)
                 (Match nowFunc r)).
  unfold Match. cbv zeta. apply writes_bind; [apply writes_getSelf|]. intros cm.
  apply writes_bind.
  - apply writes_forRange. intros i. unfold matchPair. writes.
  - intros [|b]; writes.
Qed.
End MatchLog.

(** ** [UnmarshalCaddyfile] block by block, and [CaddyModule] *)

Section UnmarshalRun.
Context {D : Type} {DD : caddyfile.Dispenser D}.

(** [UnmarshalCaddyfile] appends the pairs of the blocks it accepts in
    their order, the first argument to [EnableAt] and the second to
    [DisableAt], after the entries that are there.  It returns nil at the
    end of the tokens.  At the first block that has not two arguments it
    returns the error, and the pairs of the blocks before it stay
    appended. *)
Theorem UnmarshalCaddyfile_parses (d : D) (ps : list (string * string))
    (bad : option (list string)) (d' : D) (w : World) :
  Parses d ps bad d' ->
  UnmarshalCaddyfile d w
  = (Done (match bad with
           | None => None
           | Some _ => Some (twoArgumentsError d')
           end, d'),
     mkWorld (mkCronMatcher (EnableAt (self w) ++ map fst ps)
                            (DisableAt (self w) ++ map snd ps)
                            (logger (self w)))
             (sink w)).
Proof. intros Hp. now apply UnmarshalCaddyfile_run. Qed.
End UnmarshalRun.

Lemma zip_map_fst_snd {A B} (ps : list (A * B)) : zip (map fst ps) (map snd ps) = ps.
Proof. induction ps as [|[a b] ps IH]; cbn; [reflexivity | now rewrite IH]. Qed.

(** [caddy.ModuleInfo], with the two fields [CaddyModule] sets. *)
Record ModuleInfo : Type := mkModuleInfo { ID : string; New : unit -> CronMatcher }.

(** [func (CronMatcher) CaddyModule() caddy.ModuleInfo]: [new(CronMatcher)]
    is the zero value, with nil slices and a nil logger. *)
Definition CaddyModule : ModuleInfo :=
  mkModuleInfo "http.matchers.cron" (fun _ => mkCronMatcher [] [] None).

Section Lifecycle.
Context {G : gronx.Evaluator} {D : Type} {DD : caddyfile.Dispenser D}.

(** From the Caddyfile to the query: a new module, the tokens of a matcher
    whose blocks all have two arguments, then [Provision].  The parse
    returns nil and the matcher holds the pairs of the blocks in their
    order.  With no block [Provision] refuses the matcher; with at least one
    it accepts, and [Match] returns the OR over the pairs of the blocks. *)
Theorem configured_from_Caddyfile (d d' : D) (ps : list (string * string))
    (ctx : caddy.Context) (nowFunc : unit -> time.Time) (r : http.Request)
    (sk : list zap.Entry) :
  Parses d ps None d' ->
  fst (UnmarshalCaddyfile d (mkWorld (New CaddyModule tt) sk)) = Done (None, d')
  /\ pairs (self (snd (UnmarshalCaddyfile d (mkWorld (New CaddyModule tt) sk)))) = ps
  /\ (ps = [] ->
      fst (Provision ctx (snd (UnmarshalCaddyfile d (mkWorld (New CaddyModule tt) sk))))
      = Done (Some ErrAtLeastOne))
  /\ (ps <> [] ->
      fst (Provision ctx (snd (UnmarshalCaddyfile d (mkWorld (New CaddyModule tt) sk))))
      = Done None
      /\ fst (Match nowFunc r
                (provisionedWorld ctx
                   (snd (UnmarshalCaddyfile d (mkWorld (New CaddyModule tt) sk)))))
         = Done (anyPairMatches (nowFunc tt) ps)).
Proof.
  intros Hp. rewrite (UnmarshalCaddyfile_run d ps None d' _ Hp).
  cbn [fst snd self sink New CaddyModule EnableAt DisableAt logger app].
  set (w1 := mkWorld (mkCronMatcher (map fst ps) (map snd ps) None) sk).
  assert (Hpairs : pairs (self w1) = ps) by apply zip_map_fst_snd.
  destruct (Provision_result ctx w1) as [Hr Hs].
  cbn [w1 self EnableAt DisableAt] in Hr. rewrite !length_map, Nat.eqb_refl in Hr.
  cbn [negb] in Hr. rewrite orb_diag in Hr.
  split; [reflexivity|]. split; [exact Hpairs|]. split.
  - intros ->. exact Hr.
  - intros Hne. destruct ps as [|p ps]; [congruence|]. cbn in Hr. split; [exact Hr|].
    unfold provisionedWorld. rewrite Match_result; rewrite Hs.
    + unfold pairs in *. cbn [EnableAt DisableAt]. now rewrite Hpairs.
    + split; [eexists; reflexivity|]. cbn. now rewrite !length_map.
Qed.
End Lifecycle.

(** ** Instances of the further properties *)

Module MoreInstances.
#[local] Existing Instance Tokens.dispenser.
#[local] Existing Instance Examples.gx.
Import Scenarios.

(** Three start rules, the second and the third not valid. *)
Lemma Validate_first_invalid_witness :
  (forall j x, (j < 1)%nat ->
     ruleAt (self (world ["0 10 * * *"; "bad"; "worse"] ["0 11 * * *"])) enable_at j = Some x ->
     gronx.IsValid x = true)
  /\ (enable_at = disable_at ->
      forall j x,
        EnableAt (self (world ["0 10 * * *"; "bad"; "worse"] ["0 11 * * *"])) !! j = Some x ->
        gronx.IsValid x = true).
Proof.
  apply (Validate_first_invalid (world ["0 10 * * *"; "bad"; "worse"] ["0 11 * * *"])
           enable_at 1 "bad").
  reflexivity.
Defined.

(** A start rule that is never due and has no end rule: skipped, with
    one error entry. *)
Lemma matchPair_logs_failure_witness :
  matchPair 1730457000 0 (world ["0 0 30 2 *"] [])
  = (Done Continue,
     mkWorld (self (world ["0 0 30 2 *"] []))
       (zap.write lg (lastEnableFailed "0 0 30 2 *" (ErrLibrary "tried so hard")) [])).
Proof.
  destruct (matchPair_logs_failure 1730457000 0 (world ["0 0 30 2 *"] []) lg "0 0 30 2 *")
    as [Hstart _]; [reflexivity | reflexivity |].
  apply (Hstart 1730457000). reflexivity.
Defined.

(** The matcher of the daily window before [Provision]. *)
Lemma Match_without_logger_panics_witness :
  exists p,
    Match (fun _ => 1730457000) Examples.r
      (mkWorld (mkCronMatcher ["0 10 * * *"] ["0 11 * * *"] None) [])
    = (Panicked p, mkWorld (mkCronMatcher ["0 10 * * *"] ["0 11 * * *"] None) []).
Proof.
  apply (Match_without_logger_panics (fun _ => 1730457000) Examples.r
           (mkWorld (mkCronMatcher ["0 10 * * *"] ["0 11 * * *"] None) [])).
  reflexivity.
Defined.

(** One start rule and two end rules. *)
Lemma Match_ignores_surplus_disable_witness :
  fst (Match (fun _ => 1730457000) Examples.r
         (world ["0 10 * * *"] ["0 11 * * *"; "0 16 * * 0,6"]))
  = Done (anyPairMatches 1730457000 [("0 10 * * *", "0 11 * * *")]).
Proof.
  apply (Match_ignores_surplus_disable (fun _ => 1730457000) Examples.r
           (world ["0 10 * * *"] ["0 11 * * *"; "0 16 * * 0,6"]));
    [eexists; reflexivity | cbn; lia].
Defined.

(** One start rule and no end rule. *)
Lemma Match_missing_disable_panics_witness :
  fst (Match (fun _ => 1730457000) Examples.r (world ["0 10 * * *"] []))
  = Panicked (IndexOutOfRange 0 0).
Proof.
  apply (Match_missing_disable_panics (fun _ => 1730457000) Examples.r
           (world ["0 10 * * *"] []) "0 10 * * *");
    [eexists; reflexivity | reflexivity | reflexivity | reflexivity].
Defined.

(** The daily window, followed by a start rule that is no rule and has
    no end rule. *)
Lemma Match_stops_at_first_match_witness :
  fst (Match (fun _ => 1730457000) Examples.r
         (mkWorld (mkCronMatcher (["0 10 * * *"] ++ ["no rule"]) (["0 11 * * *"] ++ [])
                                 (Some lg)) []))
  = Done true
  /\ sink (snd (Match (fun _ => 1730457000) Examples.r
                  (mkWorld (mkCronMatcher (["0 10 * * *"] ++ ["no rule"]) (["0 11 * * *"] ++ [])
                                          (Some lg)) [])))
     = sink (snd (Match (fun _ => 1730457000) Examples.r
                    (mkWorld (mkCronMatcher ["0 10 * * *"] ["0 11 * * *"] (Some lg)) []))).
Proof.
  apply (Match_stops_at_first_match (fun _ => 1730457000) Examples.r lg []
           ["0 10 * * *"] ["0 11 * * *"] ["no rule"] []); reflexivity.
Defined.

(** The weekday window and the weekend window of the test. *)
Lemma Match_of_appended_sets_witness :
  exists b1 b2,
    fst (Match (fun _ => 1730647800) Examples.r
           (mkWorld (mkCronMatcher ["0 10 * * 1-5"] ["0 11 * * 1-5"] (Some lg)) [])) = Done b1
    /\ fst (Match (fun _ => 1730647800) Examples.r
              (mkWorld (mkCronMatcher ["0 15 * * 0,6"] ["0 16 * * 0,6"] (Some lg)) []))
       = Done b2
    /\ fst (Match (fun _ => 1730647800) Examples.r
              (mkWorld (mkCronMatcher (["0 10 * * 1-5"] ++ ["0 15 * * 0,6"])
                                      (["0 11 * * 1-5"] ++ ["0 16 * * 0,6"]) (Some lg)) []))
       = Done (b1 || b2).
Proof.
  apply (Match_of_appended_sets (fun _ => 1730647800) Examples.r lg []
           ["0 10 * * 1-5"] ["0 11 * * 1-5"] ["0 15 * * 0,6"] ["0 16 * * 0,6"]);
    reflexivity.
Defined.

(** The daily window, with no logger before [Provision]. *)
Lemma Provision_then_Match_witness :
  fst (Match (fun _ => 1730457000) Examples.r
         (provisionedWorld ctx (mkWorld (mkCronMatcher ["0 10 * * *"] ["0 11 * * *"] None) [])))
  = Done (anyPairMatches 1730457000 [("0 10 * * *", "0 11 * * *")]).
Proof.
  apply (Provision_then_Match ctx (fun _ => 1730457000) Examples.r
           (mkWorld (mkCronMatcher ["0 10 * * *"] ["0 11 * * *"] None) [])).
  reflexivity.
Defined.

(** A good line and then a line with one argument. *)
Lemma UnmarshalCaddyfile_parses_witness :
  UnmarshalCaddyfile
    (Tokens.start [["cron"; "0 10 * * *"; "0 11 * * *"]; ["cron"; "0 15 * * 0,6"]])
    (mkWorld (mkCronMatcher [] [] None) [])
  = (Done (Some (twoArgumentsError (Tokens.mkCursor (Some 2%nat) [])),
           Tokens.mkCursor (Some 2%nat) []),
     mkWorld (mkCronMatcher ["0 10 * * *"] ["0 11 * * *"] None) []).
Proof.
  apply (UnmarshalCaddyfile_parses
           (Tokens.start [["cron"; "0 10 * * *"; "0 11 * * *"]; ["cron"; "0 15 * * 0,6"]])
           [("0 10 * * *", "0 11 * * *")] (Some ["0 15 * * 0,6"])
           (Tokens.mkCursor (Some 2%nat) [])
           (mkWorld (mkCronMatcher [] [] None) [])).
  eapply Parses_pair; [reflexivity | reflexivity |].
  eapply Parses_bad; [reflexivity | reflexivity | cbn; lia].
Defined.

(** A matcher block of one line, from the tokens to the query at 10:30. *)
Lemma configured_from_Caddyfile_witness :
  fst (Provision ctx
         (snd (UnmarshalCaddyfile (Tokens.start [["cron"; "0 10 * * *"; "0 11 * * *"]])
                 (mkWorld (New CaddyModule tt) []))))
  = Done None
  /\ fst (Match (fun _ => 1730457000) Examples.r
            (provisionedWorld ctx
               (snd (UnmarshalCaddyfile (Tokens.start [["cron"; "0 10 * * *"; "0 11 * * *"]])
                       (mkWorld (New CaddyModule tt) [])))))
     = Done (anyPairMatches 1730457000 [("0 10 * * *", "0 11 * * *")]).
Proof.
  destruct (configured_from_Caddyfile
              (Tokens.start [["cron"; "0 10 * * *"; "0 11 * * *"]])
              (Tokens.mkCursor (Some 1%nat) [])
              [("0 10 * * *", "0 11 * * *")] ctx (fun _ => 1730457000) Examples.r [])
    as (_ & _ & _ & Hserve).
  - eapply Parses_pair; [reflexivity | reflexivity |]. apply Parses_end. reflexivity.
  - apply Hserve. discriminate.
Defined.
(** The daily window under a logger for every level and under one for
    errors only. *)
Lemma Match_whatever_the_logger_witness :
  fst (Match (fun _ => 1730457000) Examples.r
         (mkWorld (mkCronMatcher ["0 10 * * *"] ["0 11 * * *"]
                                 (Some (zap.mkLogger zap.ErrorLevel))) []))
  = fst (Match (fun _ => 1730457000) Examples.r (world ["0 10 * * *"] ["0 11 * * *"])).
Proof.
  apply (Match_whatever_the_logger (fun _ => 1730457000) Examples.r
           (world ["0 10 * * *"] ["0 11 * * *"])
           (mkWorld (mkCronMatcher ["0 10 * * *"] ["0 11 * * *"]
                                   (Some (zap.mkLogger zap.ErrorLevel))) []));
    first [reflexivity | eexists; reflexivity].
Defined.
End MoreInstances.
